(** * NômSense front end: the interaction state of [App.tsx]

    A shallow embedding of [src/frontend/src/App.tsx]: the values the
    component derives from its state ([resolvedSource], [previewUrl],
    [resolvedSourceLabel], the per-row [isActive] and [key]), its event
    handlers, and the part of the browser's [URL] and [URLSearchParams]
    classes that [previewUrl] relies on.

    JavaScript strings are modelled as byte strings in UTF-8 (Rocq's
    [string]); integral numbers as [Z]. *)

From Stdlib Require Import String Ascii List ZArith NArith Bool Lia.
From Stdlib Require Import DecimalString.
From Stdlib Require DecimalPos DecimalZ.
Import ListNotations.

Local Open Scope list_scope.
Local Open Scope string_scope.

(* ================================================================== *)
(** ** JavaScript values *)

Module JS.

(** A property that may be missing ([undefined]), [null], or present. *)
Inductive optional (A : Type) : Type :=
| undefined : optional A
| null : optional A
| value : A -> optional A.

Arguments undefined {A}.
Arguments null {A}.
Arguments value {A} _.

(** [o ?? d]: the fallback is taken for [null] and [undefined] only. *)
Definition nullish {A : Type} (o : optional A) (d : A) : A :=
  match o with
  | value a => a
  | _ => d
  end.

(** Truthiness of a string and of a number. *)
Definition truthy_string (s : string) : bool := negb (s =? "").

Definition truthy_number (n : Z) : bool := negb (n =? 0)%Z.

(** Truthiness of [string | null | undefined]. *)
Definition truthy_optional_string (o : optional string) : bool :=
  match o with
  | value s => truthy_string s
  | _ => false
  end.

(** Truthiness of [number | null | undefined]. *)
Definition truthy_optional_number (o : optional Z) : bool :=
  match o with
  | value n => truthy_number n
  | _ => false
  end.

(** Truthiness of a result that is a string or nothing. *)
Definition truthy_option_string (o : option string) : bool :=
  match o with
  | Some s => truthy_string s
  | None => false
  end.

(** [a === b] on [string | null | undefined]. *)
Definition strict_eq (a b : optional string) : bool :=
  match a, b with
  | undefined, undefined => true
  | null, null => true
  | value x, value y => x =? y
  | _, _ => false
  end.

(** [Number.MAX_SAFE_INTEGER], 2^53 - 1: up to it in absolute value
    every integer is a number of its own. *)
Definition MAX_SAFE_INTEGER : Z := 9007199254740991.

(** [Number.isSafeInteger(n)] for an integral [n]. *)
Definition isSafeInteger (n : Z) : Prop :=
  (- MAX_SAFE_INTEGER <= n <= MAX_SAFE_INTEGER)%Z.

(** [`${n}`] for a safe integer [n]: its decimal digits. Beyond the safe
    integers a number is printed from its shortest digits, in exponent
    form from 1e21 on, and not every integer is a number; this function
    is the printing of safe integers only, and what is stated of the
    printed digits is stated under [isSafeInteger]. *)
Definition Number_toString (n : Z) : string :=
  NilZero.string_of_int (Z.to_int n).

(** [s.slice(1)]. *)
Definition slice1 (s : string) : string :=
  match s with
  | "" => ""
  | String _ r => r
  end.

(** [s.split("#")[0]] together with what follows the first ['#'], if
    there is one. *)
Fixpoint split_hash (s : string) : string * option string :=
  match s with
  | "" => ("", None)
  | String c r =>
      if (c =? "#")%char then ("", Some r)
      else let (before, after) := split_hash r in (String c before, after)
  end.

End JS.

Import JS.

(* ================================================================== *)
(** ** [./types] *)

Module Types.

(** The declarations of [./types], after the data model: [page_number]
    is an integer, [file_name], [page_number] and [viewer_url] may be
    missing or [null]. *)
Record SourceChunk : Type := {
  label : string;
  file_name : optional string;
  page_number : optional Z;
  viewer_url : optional string;
  text : string
}.

Record AskRequest : Type := {
  question : string;
  top_k : Z;
  pool_size : Z;
  rerank : bool
}.

Record AskResponse : Type := {
  answer : string;
  sources : list SourceChunk
}.

End Types.

Import Types.

(* ================================================================== *)
(** ** The browser's [URL] and [URLSearchParams] *)

Module Web.

Definition code (c : ascii) : N := N_of_ascii c.

Definition between (lo hi : N) (c : ascii) : bool :=
  ((lo <=? code c) && (code c <=? hi))%N.

Definition is_ascii_alpha (c : ascii) : bool :=
  between 65 90 c || between 97 122 c.

Definition is_ascii_digit (c : ascii) : bool := between 48 57 c.

Definition is_ascii_alphanumeric (c : ascii) : bool :=
  is_ascii_digit c || is_ascii_alpha c.

Definition is_hex_digit (c : ascii) : bool :=
  is_ascii_digit c || between 65 70 c || between 97 102 c.

Definition hex_value (c : ascii) : N :=
  if is_ascii_digit c then code c - 48
  else if between 65 70 c then code c - 55
  else code c - 87.

Definition hex_digit (n : N) : ascii :=
  if (n <? 10)%N then ascii_of_N (48 + n) else ascii_of_N (55 + n).

(** [%XX], upper-case. *)
Definition percent_encode_byte (c : ascii) : string :=
  String "%" (String (hex_digit (code c / 16)) (String (hex_digit (code c mod 16)) "")).

Fixpoint string_filter (keep : ascii -> bool) (s : string) : string :=
  match s with
  | "" => ""
  | String c r =>
      if keep c then String c (string_filter keep r) else string_filter keep r
  end.

Fixpoint string_forallb (p : ascii -> bool) (s : string) : bool :=
  match s with
  | "" => true
  | String c r => p c && string_forallb p r
  end.

(** *** The URL parser's treatment of its input *)

Definition is_c0_control_or_space (c : ascii) : bool := (code c <=? 32)%N.

Definition is_tab_or_newline (c : ascii) : bool :=
  (code c =? 9)%N || (code c =? 10)%N || (code c =? 13)%N.

Fixpoint trim_leading (s : string) : string :=
  match s with
  | "" => ""
  | String c r => if is_c0_control_or_space c then trim_leading r else s
  end.

Fixpoint trim_trailing (s : string) : string :=
  match s with
  | "" => ""
  | String c r =>
      let r' := trim_trailing r in
      if (r' =? "") && is_c0_control_or_space c then "" else String c r'
  end.

Definition remove_tab_newline (s : string) : string :=
  string_filter (fun c => negb (is_tab_or_newline c)) s.

(** The fragment percent-encode set, on bytes: C0 controls, everything
    above [~], space, the double quote, [<], [>] and the back quote. *)
Definition in_fragment_encode_set (c : ascii) : bool :=
  (code c <? 32)%N || (126 <? code c)%N
  || (code c =? 32)%N || (code c =? 34)%N || (code c =? 60)%N
  || (code c =? 62)%N || (code c =? 96)%N.

Fixpoint fragment_percent_encode (s : string) : string :=
  match s with
  | "" => ""
  | String c r =>
      if in_fragment_encode_set c
      then percent_encode_byte c ++ fragment_percent_encode r
      else String c (fragment_percent_encode r)
  end.

(** A parsed URL: the serialization of everything before the fragment,
    and the fragment ([None]: no fragment; [Some ""] : a bare ['#']). *)
Record URL : Type := {
  href_without_fragment : string;
  fragment : option string
}.

(** [new URL(input)] with no base. Leading and trailing C0 controls and
    spaces go, then every tab and newline; the first ['#'] opens the
    fragment, which is percent-encoded. What stands before it is left to
    [parse], the host's parser of scheme, authority, path and query:
    [None] when [new URL] throws, else their serialization. *)
Definition URL_new (parse : string -> option string) (input : string) : option URL :=
  let cleaned := remove_tab_newline (trim_trailing (trim_leading input)) in
  let (before, after) := split_hash cleaned in
  match parse before with
  | None => None
  | Some base =>
      Some {| href_without_fragment := base;
              fragment := option_map fragment_percent_encode after |}
  end.

(** [url.hash]. *)
Definition URL_hash (u : URL) : string :=
  match fragment u with
  | None => ""
  | Some "" => ""
  | Some f => String "#" f
  end.

(** [url.hash = v]. *)
Definition URL_set_hash (u : URL) (v : string) : URL :=
  match v with
  | "" => {| href_without_fragment := href_without_fragment u; fragment := None |}
  | String c r =>
      let input := if (c =? "#")%char then r else v in
      {| href_without_fragment := href_without_fragment u;
         fragment := Some (fragment_percent_encode (remove_tab_newline input)) |}
  end.

(** [url.toString()]. *)
Definition URL_toString (u : URL) : string :=
  match fragment u with
  | None => href_without_fragment u
  | Some f => href_without_fragment u ++ String "#" f
  end.

(** *** [application/x-www-form-urlencoded] *)

Fixpoint split_on (sep : ascii) (s : string) : list string :=
  match s with
  | "" => [""]
  | String c r =>
      if (c =? sep)%char then "" :: split_on sep r
      else match split_on sep r with
           | [] => [String c ""]
           | x :: xs => String c x :: xs
           end
  end.

(** Name and value of one [&]-separated piece: split at its first [=]. *)
Fixpoint split_first_eq (s : string) : string * string :=
  match s with
  | "" => ("", "")
  | String c r =>
      if (c =? "=")%char then ("", r)
      else let (n, v) := split_first_eq r in (String c n, v)
  end.

Fixpoint string_map (f : ascii -> ascii) (s : string) : string :=
  match s with
  | "" => ""
  | String c r => String (f c) (string_map f r)
  end.

Definition plus_to_space (s : string) : string :=
  string_map (fun c => if (c =? "+")%char then " "%char else c) s.

(** Percent-decoding: [%] followed by two hexadecimal digits is the
    byte they spell; any other byte stands for itself. *)
Fixpoint percent_decode (s : string) : string :=
  match s with
  | "" => ""
  | String c r =>
      let plain := String c (percent_decode r) in
      if (c =? "%")%char then
        match r with
        | String h (String l r') =>
            if is_hex_digit h && is_hex_digit l
            then String (ascii_of_N (16 * hex_value h + hex_value l))
                        (percent_decode r')
            else plain
        | _ => plain
        end
      else plain
  end.

(** UTF-8 decoding with replacement, read on bytes: a well-formed
    sequence stands, each error yields U+FFFD (EF BF BD), and the byte
    that broke a sequence is read again as the start of the next. *)
Definition replacement_character : string :=
  String (ascii_of_N 239) (String (ascii_of_N 191) (String (ascii_of_N 189) "")).

(** A sequence under way: continuation bytes still expected, the bounds
    for the next byte, and the bytes read so far. *)
Record utf8_pending : Type := {
  bytes_needed : nat;
  lower_boundary : N;
  upper_boundary : N;
  bytes_seen : string
}.

(** A byte read with no sequence under way: what it emits, and the
    sequence it opens. *)
Definition utf8_first (b : ascii) : string * option utf8_pending :=
  let start n lo hi :=
    ("", Some {| bytes_needed := n; lower_boundary := lo;
                 upper_boundary := hi; bytes_seen := String b "" |}) in
  if between 0 127 b then (String b "", None)
  else if between 194 223 b then start 1%nat 128%N 191%N
  else if between 224 239 b then
    start 2%nat (if (code b =? 224)%N then 160 else 128)%N
                (if (code b =? 237)%N then 159 else 191)%N
  else if between 240 244 b then
    start 3%nat (if (code b =? 240)%N then 144 else 128)%N
                (if (code b =? 244)%N then 143 else 191)%N
  else (replacement_character, None).

Fixpoint utf8_decode_from (st : option utf8_pending) (s : string) : string :=
  match s with
  | "" => match st with
          | None => ""
          | Some _ => replacement_character
          end
  | String b r =>
      match st with
      | None =>
          let (out, st') := utf8_first b in out ++ utf8_decode_from st' r
      | Some p =>
          if between (lower_boundary p) (upper_boundary p) b then
            match bytes_needed p with
            | S (S n) =>
                utf8_decode_from
                  (Some {| bytes_needed := S n; lower_boundary := 128;
                           upper_boundary := 191;
                           bytes_seen := bytes_seen p ++ String b "" |}) r
            | _ => bytes_seen p ++ String b (utf8_decode_from None r)
            end
          else
            let (out, st') := utf8_first b in
            replacement_character ++ out ++ utf8_decode_from st' r
      end
  end.

Definition utf8_decode (s : string) : string := utf8_decode_from None s.

(** The parser: pieces between [&], empty ones skipped; each split at
    its first [=]; [+] read as a space; then percent-decoded and decoded
    as UTF-8. *)
Definition urlencoded_parse (input : string) : list (string * string) :=
  map (fun piece =>
         let (n, v) := split_first_eq piece in
         (utf8_decode (percent_decode (plus_to_space n)),
          utf8_decode (percent_decode (plus_to_space v))))
      (filter (fun piece => negb (piece =? "")) (split_on "&" input)).

(** The bytes the serializer leaves as they are: ASCII alphanumerics and
    [*], [-], [.], [_]. *)
Definition urlencoded_unreserved (c : ascii) : bool :=
  is_ascii_alphanumeric c
  || (code c =? 42)%N || (code c =? 45)%N || (code c =? 46)%N || (code c =? 95)%N.

Fixpoint urlencoded_byte_serialize (s : string) : string :=
  match s with
  | "" => ""
  | String c r =>
      if (c =? " ")%char then String "+" (urlencoded_byte_serialize r)
      else if urlencoded_unreserved c then String c (urlencoded_byte_serialize r)
      else percent_encode_byte c ++ urlencoded_byte_serialize r
  end.

Fixpoint urlencoded_serialize (l : list (string * string)) : string :=
  match l with
  | [] => ""
  | (n, v) :: rest =>
      let pair := urlencoded_byte_serialize n ++ String "=" (urlencoded_byte_serialize v) in
      match rest with
      | [] => pair
      | _ => pair ++ String "&" (urlencoded_serialize rest)
      end
  end.

(** [new URLSearchParams(init)] for a string: one leading [?] is
    dropped, the rest parsed. *)
Definition URLSearchParams_new (init : string) : list (string * string) :=
  urlencoded_parse
    (match init with
     | String c r => if (c =? "?")%char then r else init
     | "" => init
     end).

(** [params.delete(name)]: every pair of that name goes. *)
Definition URLSearchParams_delete (name : string) (params : list (string * string))
  : list (string * string) :=
  filter (fun p => negb (fst p =? name)) params.

(** [params.toString()]. *)
Definition URLSearchParams_toString (params : list (string * string)) : string :=
  urlencoded_serialize params.

End Web.

Import Web.

(* ================================================================== *)
(** ** What the component takes from its surroundings *)

(** [resolveViewerUrl] of [./client], called on non-empty strings only
    ([None]: it returned [null] or [undefined]); the host's URL parser
    (see [Web.URL_new]); and whether [window] is defined. *)
Class Host : Type := {
  resolveViewerUrl : string -> option string;
  parse_url_without_fragment : string -> option string;
  window_defined : bool
}.

(* ================================================================== *)
(** ** The component's state and effects *)

(** The [useState] cells of [App]. *)
Record AppState : Type := {
  request : AskRequest;
  answer : option AskResponse;
  selectedSource : option SourceChunk;
  loading : bool;
  error : option string;
  expandedKey : option string;
  answerHighlighted : bool
}.

Definition DEFAULT_REQUEST : AskRequest := {|
  question := "Trước khi có chữ Nôm, người Việt có từng có chữ viết riêng không?";
  top_k := 10;
  pool_size := 20;
  rerank := true
|}.

Definition initial_state : AppState := {|
  request := DEFAULT_REQUEST;
  answer := None;
  selectedSource := None;
  loading := false;
  error := None;
  expandedKey := None;
  answerHighlighted := false
|}.

(** The regions the component scrolls to. *)
Inductive Region : Type :=
| answer_region   (* answerTextRef.current ?? answerRef.current *)
| preview_region. (* previewRef.current *)

(** What a handler asks of the outside. *)
Inductive Effect : Type :=
| askQuestion (r : AskRequest)
| setTimeout_scrollIntoView (target : Region) (behavior block : string) (delay : Z)
| window_open (url target features : string).

(** A handler: the next state and the effects it requested, in order. *)
Definition Handler : Type := AppState -> AppState * list Effect.

Definition skip : Handler := fun s => (s, []).

Definition emit (e : Effect) : Handler := fun s => (s, [e]).

Definition and_then (h1 h2 : Handler) : Handler :=
  fun s =>
    let (s1, e1) := h1 s in
    let (s2, e2) := h2 s1 in
    (s2, (e1 ++ e2)%list).

Notation "h1 ;; h2" := (and_then h1 h2) (at level 61, right associativity).

(** A value the handler's closure holds from the last render. *)
Definition read {A : Type} (f : AppState -> A) (k : A -> Handler) : Handler :=
  fun s => k (f s) s.

Definition setRequest (f : AskRequest -> AskRequest) : Handler := fun s =>
  ({| request := f (request s); answer := answer s;
      selectedSource := selectedSource s; loading := loading s;
      error := error s; expandedKey := expandedKey s;
      answerHighlighted := answerHighlighted s |}, []).

Definition setAnswer (v : option AskResponse) : Handler := fun s =>
  ({| request := request s; answer := v;
      selectedSource := selectedSource s; loading := loading s;
      error := error s; expandedKey := expandedKey s;
      answerHighlighted := answerHighlighted s |}, []).

Definition setSelectedSource (v : option SourceChunk) : Handler := fun s =>
  ({| request := request s; answer := answer s;
      selectedSource := v; loading := loading s;
      error := error s; expandedKey := expandedKey s;
      answerHighlighted := answerHighlighted s |}, []).

Definition setLoading (v : bool) : Handler := fun s =>
  ({| request := request s; answer := answer s;
      selectedSource := selectedSource s; loading := v;
      error := error s; expandedKey := expandedKey s;
      answerHighlighted := answerHighlighted s |}, []).

Definition setError (v : option string) : Handler := fun s =>
  ({| request := request s; answer := answer s;
      selectedSource := selectedSource s; loading := loading s;
      error := v; expandedKey := expandedKey s;
      answerHighlighted := answerHighlighted s |}, []).

Definition setExpandedKey (v : option string) : Handler := fun s =>
  ({| request := request s; answer := answer s;
      selectedSource := selectedSource s; loading := loading s;
      error := error s; expandedKey := v;
      answerHighlighted := answerHighlighted s |}, []).

Definition setAnswerHighlighted (v : bool) : Handler := fun s =>
  ({| request := request s; answer := answer s;
      selectedSource := selectedSource s; loading := loading s;
      error := error s; expandedKey := expandedKey s;
      answerHighlighted := v |}, []).

(** What [askQuestion]'s promise settles to; a rejection carries the
    thrown value, which is an [Error] with its message or something
    else. *)
Inductive Thrown : Type :=
| Error_instance (message : string)
| not_an_Error.

Inductive Settled : Type :=
| fulfilled (response : AskResponse)
| rejected (err : Thrown).

(** [o?.f] on the source held in a cell. *)
Definition chain {A : Type} (o : option SourceChunk) (f : SourceChunk -> optional A)
  : optional A :=
  match o with
  | Some c => f c
  | None => undefined
  end.

Section App.

Context {host : Host}.

(** *** Derived values *)

Definition resolvedSource (s : AppState) : option SourceChunk :=
  match selectedSource s with
  | Some selected => Some selected
  | None =>
      match answer s with
      | Some response => hd_error (sources response)
      | None => None
      end
  end.

(** The body of the [previewUrl] memo, as a function of
    [resolvedSource?.viewer_url]. *)
Definition previewUrl_of (viewer : optional string) : option string :=
  match viewer with
  | value raw =>
      if negb (truthy_string raw) then None
      else
        match resolveViewerUrl raw with
        | None => None
        | Some absolute =>
            if negb (truthy_string absolute) then None
            else
              match URL_new parse_url_without_fragment absolute with
              | Some url =>
                  let url :=
                    if (1 <? String.length (URL_hash url))%nat then
                      let params := URLSearchParams_new (slice1 (URL_hash url)) in
                      let params := URLSearchParams_delete "search" params in
                      let hash := URLSearchParams_toString params in
                      URL_set_hash url
                        (if truthy_string hash then String "#" hash else "")
                    else url in
                  Some (URL_toString url)
              | None => Some (fst (split_hash absolute))
              end
        end
  | _ => None
  end.

Definition previewUrl (s : AppState) : option string :=
  previewUrl_of (chain (resolvedSource s) viewer_url).

Definition resolvedSourceLabel (s : AppState) : string :=
  match resolvedSource s with
  | None => "Chưa chọn nguồn"
  | Some r =>
      let pageSuffix :=
        match page_number r with
        | value n => if truthy_number n then " – trang " ++ Number_toString n else ""
        | _ => ""
        end in
      label r ++ pageSuffix
  end.

(** What the row of [source] computes while [answer.sources] is mapped:
    whether it is active, its key at position [idx], and whether its
    excerpt is shown. *)
Definition isActive (s : AppState) (source : SourceChunk) : bool :=
  (strict_eq (chain (resolvedSource s) viewer_url) (viewer_url source)
   && strict_eq (chain (resolvedSource s) (fun r => value (label r)))
                (value (label source)))
  || strict_eq (chain (selectedSource s) (fun r => value (label r)))
               (value (label source)).

Definition key (source : SourceChunk) (idx : nat) : string :=
  nullish (file_name source) (label source) ++ "-"
  ++ match page_number source with
     | value n => Number_toString n
     | _ => Number_toString (Z.of_nat idx)
     end.

Definition isExpanded (s : AppState) (source : SourceChunk) (idx : nat) : bool :=
  match expandedKey s with
  | Some k => k =? key source idx
  | None => false
  end.

(** *** Handlers *)

Definition scrollAnswerIntoView : Handler :=
  if negb window_defined then skip
  else emit (setTimeout_scrollIntoView answer_region "smooth" "center" 0).

Definition scrollPreviewIntoView : Handler :=
  if negb window_defined then skip
  else emit (setTimeout_scrollIntoView preview_region "smooth" "start" 0).

(** [handleSubmit] up to its [await]. *)
Definition handleSubmit_call : Handler :=
  setLoading true ;;
  setError None ;;
  read request (fun r => emit (askQuestion r)).

(** [handleSubmit] from the point the promise settles. *)
Definition handleSubmit_settled (outcome : Settled) : Handler :=
  match outcome with
  | fulfilled response =>
      setAnswer (Some response) ;;
      setSelectedSource (hd_error (sources response)) ;;
      setExpandedKey None ;;
      setAnswerHighlighted true ;;
      scrollAnswerIntoView
  | rejected err =>
      let message :=
        match err with
        | Error_instance m => m
        | not_an_Error => "Failed to reach backend"
        end in
      setError (Some message) ;;
      setAnswer None ;;
      setAnswerHighlighted false
  end ;;
  setLoading false.

(** A whole submission with nothing happening in between. *)
Definition handleSubmit (outcome : Settled) : Handler :=
  handleSubmit_call ;; handleSubmit_settled outcome.

Definition handleSourceClick (source : SourceChunk) : Handler :=
  setSelectedSource (Some source) ;;
  setAnswerHighlighted false ;;
  scrollPreviewIntoView.

Definition clearAnswerHighlight : Handler := setAnswerHighlighted false.

Definition handleInputChange (value : string) : Handler :=
  setRequest (fun prev =>
    {| question := value; top_k := top_k prev;
       pool_size := pool_size prev; rerank := rerank prev |}) ;;
  clearAnswerHighlight.

(** The [onClick] of a row's first button, with the row's [key] and
    [isExpanded] as rendered. *)
Definition toggleExpand (k : string) : Handler :=
  clearAnswerHighlight ;;
  read expandedKey (fun e =>
    let isExpanded := match e with Some k' => k' =? k | None => false end in
    setExpandedKey (if isExpanded then None else Some k)).

(** The [onClick] of a row's second button. *)
Definition quickView (source : SourceChunk) : Handler :=
  clearAnswerHighlight ;; handleSourceClick source.

(** The [onClick] of the full text button, rendered for this
    [viewer_url]. *)
Definition openFullText (viewer : string) : Handler :=
  match resolveViewerUrl viewer with
  | Some direct =>
      if truthy_string direct && window_defined
      then emit (window_open direct "_blank" "noopener,noreferrer")
      else skip
  | None => skip
  end.

(** *** Events *)

Inductive Event : Type :=
| question_change (value : string)   (* textarea onChange *)
| submit_click                       (* the submit button *)
| ask_settled (outcome : Settled)    (* the awaited promise settles *)
| answer_click                       (* answer card onClick *)
| answer_focus                       (* answer card onFocusCapture *)
| citation_click (idx : nat)         (* a row's onClick *)
| expand_click (idx : nat)           (* a row's first button *)
| quick_view_click (idx : nat)       (* a row's second button *)
| full_text_click.                   (* the preview header's button *)

(** The state with the number of [askQuestion] calls not yet settled. *)
Record Session : Type := {
  app : AppState;
  in_flight : nat
}.

Definition initial_session : Session :=
  {| app := initial_state; in_flight := 0 |}.

(** The row rendered at [idx], if any. *)
Definition rendered_source (s : AppState) (idx : nat) : option SourceChunk :=
  match answer s with
  | Some response => nth_error (sources response) idx
  | None => None
  end.

(** The handler an event runs, [None] when its element is not rendered
    or is disabled. A click the handler does not stop goes on to the
    answer card's [onClick]. *)
Definition handler_of (e : Event) (w : Session) : option Handler :=
  let s := app w in
  match e with
  | question_change v => Some (handleInputChange v)
  | submit_click => if loading s then None else Some handleSubmit_call
  | ask_settled outcome =>
      match in_flight w with
      | O => None
      | S _ => Some (handleSubmit_settled outcome)
      end
  | answer_click | answer_focus =>
      match answer s with
      | Some _ => Some clearAnswerHighlight
      | None => None
      end
  | citation_click idx =>
      option_map (fun source => handleSourceClick source ;; clearAnswerHighlight)
                 (rendered_source s idx)
  | expand_click idx =>
      option_map (fun source => toggleExpand (key source idx))
                 (rendered_source s idx)
  | quick_view_click idx =>
      option_map quickView (rendered_source s idx)
  | full_text_click =>
      match answer s, chain (resolvedSource s) viewer_url with
      | Some _, value v =>
          if truthy_string v then Some (openFullText v ;; clearAnswerHighlight)
          else None
      | _, _ => None
      end
  end.

Definition dispatch (e : Event) (w : Session) : option (Session * list Effect) :=
  match handler_of e w with
  | None => None
  | Some h =>
      let (s', effects) := h (app w) in
      Some ({| app := s';
               in_flight :=
                 match e with
                 | submit_click => S (in_flight w)
                 | ask_settled _ => pred (in_flight w)
                 | _ => in_flight w
                 end |}, effects)
  end.

(** Running a trace of events; [None] if one of them cannot happen. *)
Fixpoint run (trace : list Event) (w : Session) : option Session :=
  match trace with
  | [] => Some w
  | e :: rest =>
      match dispatch e w with
      | Some (w', _) => run rest w'
      | None => None
      end
  end.

Definition reachable (w : Session) : Prop :=
  exists trace, run trace initial_session = Some w.

End App.

(* ================================================================== *)
(** ** A host to run the model on *)

(** A stand-in for the host's parser on the sample links below. It
    accepts [scheme ":" rest], the scheme an ASCII letter followed by
    letters, digits, [+], [-] or [.], and returns it unchanged. On
    "https://host/doc" this is what the URL parser returns; it is not
    the URL parser elsewhere, since it normalizes nothing and refuses no
    host. No statement about every host rests on it. *)
Fixpoint scheme_end (s : string) : bool :=
  match s with
  | "" => false
  | String c r =>
      if (c =? ":")%char then true
      else (is_ascii_alphanumeric c || (code c =? 43)%N || (code c =? 45)%N
            || (code c =? 46)%N)
           && scheme_end r
  end.

Definition parse_serialized (s : string) : option string :=
  match s with
  | "" => None
  | String c r => if is_ascii_alpha c && scheme_end r then Some s else None
  end.

(** A browser whose resolver is handed absolute URLs and returns them
    as they are. *)
Definition browser_host : Host := {|
  resolveViewerUrl := fun raw => Some raw;
  parse_url_without_fragment := parse_serialized;
  window_defined := true
|}.

(** A host whose resolver knows a single document. *)
Definition single_document_host : Host := {|
  resolveViewerUrl := fun _ => Some "https://host/doc";
  parse_url_without_fragment := parse_serialized;
  window_defined := true
|}.

(* ================================================================== *)
(** ** Sample data *)

Definition source_A : SourceChunk := {|
  label := "A"; file_name := undefined; page_number := value 3%Z;
  viewer_url := undefined; text := "first excerpt"
|}.

Definition source_B : SourceChunk := {|
  label := "B"; file_name := undefined; page_number := null;
  viewer_url := undefined; text := "second excerpt"
|}.

Definition response_AB : AskResponse :=
  {| Types.answer := "an answer"; sources := [source_A; source_B] |}.

(** The session right after [response_AB] arrived for the default
    request. *)
Definition session_answered : Session := {|
  app := {| request := DEFAULT_REQUEST;
            answer := Some response_AB;
            selectedSource := Some source_A;
            loading := false;
            error := None;
            expandedKey := None;
            answerHighlighted := true |};
  in_flight := 0
|}.

(** The events that take the highlight off: an interaction with the
    answer region (a click in it that reaches the card, or focus
    entering it), a submission settling in failure, the selection of a
    citation, the toggle of a citation's excerpt, and an edit of the
    question. *)
Definition clears_highlight (e : Event) : bool :=
  match e with
  | answer_click | answer_focus | full_text_click => true
  | ask_settled (rejected _) => true
  | citation_click _ | quick_view_click _ => true
  | expand_click _ => true
  | question_change _ => true
  | submit_click | ask_settled (fulfilled _) => false
  end.

(** [session_answered] after the question was replaced by "x". *)
Definition session_edited : Session := {|
  app := {| request := {| question := "x"; top_k := 10; pool_size := 20;
                          rerank := true |};
            answer := Some response_AB;
            selectedSource := Some source_A;
            loading := false;
            error := None;
            expandedKey := None;
            answerHighlighted := false |};
  in_flight := 0
|}.

(** Two pages of one book under one label. *)
Definition source_page1 : SourceChunk := {|
  label := "A"; file_name := value "book.pdf"; page_number := value 1%Z;
  viewer_url := undefined; text := "page one"
|}.

Definition source_page2 : SourceChunk := {|
  label := "A"; file_name := value "book.pdf"; page_number := value 2%Z;
  viewer_url := undefined; text := "page two"
|}.

Definition state_two_pages : AppState := {|
  request := DEFAULT_REQUEST;
  answer := Some {| Types.answer := "an answer";
                    sources := [source_page1; source_page2] |};
  selectedSource := Some source_page1;
  loading := false;
  error := None;
  expandedKey := None;
  answerHighlighted := true
|}.

(** A source whose link carries a highlight term. *)
Definition source_linked : SourceChunk := {|
  label := "A"; file_name := undefined; page_number := value 3%Z;
  viewer_url := value "https://host/doc#search=foo"; text := "first excerpt"
|}.

Definition session_linked : Session := {|
  app := {| request := DEFAULT_REQUEST;
            answer := Some {| Types.answer := "an answer";
                              sources := [source_linked] |};
            selectedSource := Some source_linked;
            loading := false;
            error := None;
            expandedKey := None;
            answerHighlighted := true |};
  in_flight := 0
|}.

(** A byte that neither the fragment state of the URL parser nor its
    removal of tabs and newlines touches. *)
Definition fragment_inert (c : ascii) : bool :=
  negb (in_fragment_encode_set c) && negb (is_tab_or_newline c).

(** No ['#'] in a string. *)
Definition hash_free (s : string) : bool :=
  string_forallb (fun c => negb (c =? "#")%char) s.

(** What [{error && <p className="error-text">{error}</p>}] shows: the
    message, when it is there and not empty. *)
Definition error_text (s : AppState) : option string :=
  match error s with
  | Some message => if truthy_string message then Some message else None
  | None => None
  end.

(** What the sessions reached from [initial_session] have in common. *)
Record session_invariant (w : Session) : Prop := {
  inv_in_flight : in_flight w = if loading (app w) then 1%nat else 0%nat;
  inv_top_k : top_k (request (app w)) = 10%Z;
  inv_pool_size : pool_size (request (app w)) = 20%Z;
  inv_rerank : rerank (request (app w)) = true;
  inv_selected_listed :
    forall response selected,
      answer (app w) = Some response ->
      selectedSource (app w) = Some selected ->
      In selected (sources response);
  inv_selected_none :
    forall response,
      answer (app w) = Some response ->
      selectedSource (app w) = None ->
      sources response = [];
  inv_error :
    error (app w) <> None ->
    answer (app w) = None /\ loading (app w) = false
    /\ answerHighlighted (app w) = false;
  inv_highlight :
    answerHighlighted (app w) = true -> answer (app w) <> None
}.

(** The number a row's key ends with: [source.page_number ?? idx]. *)
Definition page_or_index (source : SourceChunk) (idx : nat) : Z :=
  nullish (page_number source) (Z.of_nat idx).

(** No ['-'] in a string. *)
Definition dash_free (s : string) : bool :=
  string_forallb (fun c => negb (c =? "-")%char) s.

(** The bytes the serializer of parameters writes for a name or a
    value: the unreserved ones, [+] and [%]. *)
Definition urlencoded_written (c : ascii) : bool :=
  urlencoded_unreserved c || (c =? "+")%char || (c =? "%")%char.

(** The sequence under way is the one its bytes open: reading them
    from the start leads to it. *)
Definition utf8_reads (p : utf8_pending) : Prop :=
  forall rest,
    utf8_decode_from None (bytes_seen p ++ rest) = utf8_decode_from (Some p) rest.

(** One serialized parameter. *)
Definition urlencoded_pair (p : string * string) : string :=
  urlencoded_byte_serialize (fst p) ++ String "=" (urlencoded_byte_serialize (snd p)).

(** A row of the same book that carries no page number. *)
Definition source_pageless : SourceChunk := {|
  label := "A"; file_name := value "book.pdf"; page_number := null;
  viewer_url := undefined; text := "no page"
|}.

(** A host without [window], as when the component is rendered on a
    server. *)
Definition headless_host : Host := {|
  resolveViewerUrl := fun raw => Some raw;
  parse_url_without_fragment := parse_serialized;
  window_defined := false
|}.

(** The initial session after a click on the submit button. *)
Definition session_loading : Session := {|
  app := {| request := DEFAULT_REQUEST;
            answer := None;
            selectedSource := None;
            loading := true;
            error := None;
            expandedKey := None;
            answerHighlighted := false |};
  in_flight := 1
|}.

(** [session_loading] after "x" was typed, and then after
    [response_AB] arrived. *)
Definition session_loading_typed : Session := {|
  app := {| request := {| question := "x"; top_k := 10; pool_size := 20;
                          rerank := true |};
            answer := None;
            selectedSource := None;
            loading := true;
            error := None;
            expandedKey := None;
            answerHighlighted := false |};
  in_flight := 1
|}.

Definition session_typed_answered : Session := {|
  app := {| request := {| question := "x"; top_k := 10; pool_size := 20;
                          rerank := true |};
            answer := Some response_AB;
            selectedSource := Some source_A;
            loading := false;
            error := None;
            expandedKey := None;
            answerHighlighted := true |};
  in_flight := 0
|}.

(** [session_linked] after the row of its source was clicked. *)
Definition session_linked_clicked : Session := {|
  app := {| request := DEFAULT_REQUEST;
            answer := Some {| Types.answer := "an answer";
                              sources := [source_linked] |};
            selectedSource := Some source_linked;
            loading := false;
            error := None;
            expandedKey := None;
            answerHighlighted := false |};
  in_flight := 0
|}.

(* ================================================================== *)
(** ** Basic facts *)

Lemma strict_eq_true (a b : optional string) : strict_eq a b = true <-> a = b.
Proof.
  destruct a as [| |x], b as [| |y]; simpl; split; intro H;
    try reflexivity; try discriminate.
  - apply String.eqb_eq in H. now subst.
  - inversion H. apply String.eqb_refl.
Qed.

Lemma truthy_string_true (s : string) : truthy_string s = true <-> s <> "".
Proof.
  unfold truthy_string. destruct s; simpl; split; intro H;
    try discriminate; try reflexivity; congruence.
Qed.

Lemma truthy_string_false (s : string) : truthy_string s = false <-> s = "".
Proof.
  unfold truthy_string. destruct s; simpl; split; intro H;
    try discriminate; reflexivity.
Qed.

Lemma append_empty_r (s : string) : s ++ "" = s.
Proof. induction s as [|c r IH]; simpl; [reflexivity|now rewrite IH]. Qed.

Lemma string_forallb_app (p : ascii -> bool) (a b : string) :
  string_forallb p (a ++ b) = string_forallb p a && string_forallb p b.
Proof.
  induction a as [|c r IH]; simpl; [reflexivity|].
  now rewrite IH, andb_assoc.
Qed.

(* ================================================================== *)
(** ** Fragments and their parameters *)

(** The text before the first ['#'] holds no ['#'], and the string is
    that text, followed by ['#'] and the rest when there is one. *)
Lemma split_hash_spec (s : string) :
  hash_free (fst (split_hash s)) = true
  /\ match snd (split_hash s) with
     | None => s = fst (split_hash s)
     | Some rest => s = fst (split_hash s) ++ String "#" rest
     end.
Proof.
  induction s as [|c r [IH1 IH2]]; simpl; [split; reflexivity|].
  destruct (Ascii.eqb_spec c "#") as [->|NE]; simpl; [split; reflexivity|].
  destruct (split_hash r) as [before after]; simpl in *.
  split.
  - unfold hash_free in *. simpl. rewrite IH1.
    destruct (Ascii.eqb_spec c "#"); [contradiction|reflexivity].
  - destruct after; now rewrite <- IH2.
Qed.

Lemma percent_encode_byte_inert (c : ascii) :
  string_forallb fragment_inert (percent_encode_byte c) = true.
Proof. destruct c as [[] [] [] [] [] [] [] []]; reflexivity. Qed.

Lemma unreserved_inert (c : ascii) :
  urlencoded_unreserved c = true -> fragment_inert c = true.
Proof.
  destruct c as [[] [] [] [] [] [] [] []]; vm_compute; intro H;
    try reflexivity; discriminate H.
Qed.

(** What the serializer writes is left alone by the URL parser. *)
Lemma urlencoded_byte_serialize_inert (s : string) :
  string_forallb fragment_inert (urlencoded_byte_serialize s) = true.
Proof.
  induction s as [|c r IH]; [reflexivity|].
  cbn [urlencoded_byte_serialize].
  destruct (c =? " ")%char; [simpl; exact IH|].
  destruct (urlencoded_unreserved c) eqn:U.
  - simpl. now rewrite (unreserved_inert c U), IH.
  - now rewrite string_forallb_app, percent_encode_byte_inert, IH.
Qed.

Lemma urlencoded_serialize_inert (l : list (string * string)) :
  string_forallb fragment_inert (urlencoded_serialize l) = true.
Proof.
  induction l as [|[n v] rest IH]; [reflexivity|].
  assert (P : string_forallb fragment_inert
                (urlencoded_byte_serialize n
                 ++ String "=" (urlencoded_byte_serialize v)) = true).
  { rewrite string_forallb_app. simpl.
    now rewrite !urlencoded_byte_serialize_inert. }
  simpl. destruct rest as [|p rest']; [exact P|].
  rewrite string_forallb_app, P. simpl. exact IH.
Qed.

Lemma inert_unchanged (s : string) :
  string_forallb fragment_inert s = true ->
  fragment_percent_encode (remove_tab_newline s) = s.
Proof.
  unfold remove_tab_newline, fragment_inert.
  induction s as [|c r IH]; simpl; [reflexivity|].
  rewrite !andb_true_iff, !negb_true_iff. intros [[E T] R].
  rewrite T. simpl. rewrite E. now rewrite IH.
Qed.

(** Setting the hash to ['#'] and a serialized parameter list keeps the
    list as serialized. *)
Lemma URL_set_hash_serialized (u : URL) (l : list (string * string)) :
  URL_set_hash u (String "#" (urlencoded_serialize l))
  = {| href_without_fragment := href_without_fragment u;
       fragment := Some (urlencoded_serialize l) |}.
Proof.
  unfold URL_set_hash. rewrite Ascii.eqb_refl.
  now rewrite inert_unchanged by apply urlencoded_serialize_inert.
Qed.

(* ================================================================== *)
(** ** The request life cycle *)

Section Submission.

Context {host : Host}.

(** The effects of the call for a scroll to the answer: one deferred
    scroll when there is a window, nothing otherwise. *)
Lemma scrollAnswerIntoView_effects (s : AppState) :
  scrollAnswerIntoView s
  = (s, if window_defined
        then [setTimeout_scrollIntoView answer_region "smooth" "center" 0]
        else []).
Proof. unfold scrollAnswerIntoView. destruct window_defined; reflexivity. Qed.

Lemma scrollPreviewIntoView_effects (s : AppState) :
  scrollPreviewIntoView s
  = (s, if window_defined
        then [setTimeout_scrollIntoView preview_region "smooth" "start" 0]
        else []).
Proof. unfold scrollPreviewIntoView. destruct window_defined; reflexivity. Qed.

(** The state a rejected promise leaves, whatever the state it finds. *)
Lemma handleSubmit_settled_rejected (err : Thrown) (s : AppState) :
  handleSubmit_settled (rejected err) s
  = ({| request := request s; answer := None;
        selectedSource := selectedSource s; loading := false;
        error := Some match err with
                      | Error_instance m => m
                      | not_an_Error => "Failed to reach backend"
                      end;
        expandedKey := expandedKey s; answerHighlighted := false |}, []).
Proof. reflexivity. Qed.

Lemma handleSubmit_settled_fulfilled (response : AskResponse) (s : AppState) :
  handleSubmit_settled (fulfilled response) s
  = ({| request := request s; answer := Some response;
        selectedSource := hd_error (sources response); loading := false;
        error := error s; expandedKey := None; answerHighlighted := true |},
     snd (scrollAnswerIntoView s)).
Proof.
  unfold handleSubmit_settled, and_then. cbn.
  rewrite !scrollAnswerIntoView_effects. cbn.
  now rewrite app_nil_r.
Qed.

Lemma handleSubmit_call_state (s : AppState) :
  handleSubmit_call s
  = ({| request := request s; answer := answer s;
        selectedSource := selectedSource s; loading := true;
        error := None; expandedKey := expandedKey s;
        answerHighlighted := answerHighlighted s |},
     [askQuestion (request s)]).
Proof. reflexivity. Qed.

(** C7, as the code has it. A failing submission, from any state and
    whether followed from the click or from the moment the promise
    rejects: [error] is the message of the thrown [Error] as it is, the
    empty message included, and it is "Failed to reach backend" when
    what was thrown is no [Error], whatever that value carries;
    [answer] is [null]; the highlight is off; [loading] is [false]; the
    request, and with it the question typed, is the one from before the
    submission. *)
Theorem failing_submission (err : Thrown) (s : AppState) :
  let settled := fst (handleSubmit_settled (rejected err) s) in
  let whole := fst (handleSubmit (rejected err) s) in
  (forall m, err = Error_instance m ->
     error settled = Some m /\ error whole = Some m)
  /\ (err = Error_instance "" ->
      error settled = Some "" /\ error whole = Some "")
  /\ (err = not_an_Error ->
      error settled = Some "Failed to reach backend"
      /\ error whole = Some "Failed to reach backend")
  /\ answer settled = None /\ answer whole = None
  /\ answerHighlighted settled = false /\ answerHighlighted whole = false
  /\ loading settled = false /\ loading whole = false
  /\ request settled = request s /\ request whole = request s
  /\ question (request whole) = question (request s).
Proof.
  intros settled whole. subst settled whole.
  unfold handleSubmit, and_then.
  rewrite handleSubmit_call_state, !handleSubmit_settled_rejected. cbn.
  repeat split; try reflexivity; intros; subst; reflexivity.
Qed.

(** C8. A submission first turns [loading] on and clears [error],
    leaving the rest of the state alone and handing the request to
    [askQuestion]. When the promise is fulfilled the response is stored,
    the selection becomes its first source ([null] when it has none),
    no excerpt is expanded, the highlight is on, a scroll to the answer
    is requested (one deferred, centred, smooth scroll of the answer
    region wherever there is a window), and [loading] is off at the
    end. *)
Theorem successful_submission (response : AskResponse) (s : AppState) :
  let pending := fst (handleSubmit_call s) in
  let done := fst (handleSubmit (fulfilled response) s) in
  (loading pending = true /\ error pending = None
   /\ request pending = request s /\ answer pending = answer s
   /\ selectedSource pending = selectedSource s
   /\ expandedKey pending = expandedKey s
   /\ answerHighlighted pending = answerHighlighted s
   /\ snd (handleSubmit_call s) = [askQuestion (request s)])
  /\ done = fst (handleSubmit_settled (fulfilled response) pending)
  /\ answer done = Some response
  /\ (forall first rest, sources response = first :: rest ->
        selectedSource done = Some first)
  /\ (sources response = [] -> selectedSource done = None)
  /\ expandedKey done = None
  /\ answerHighlighted done = true
  /\ snd (handleSubmit_settled (fulfilled response) pending)
     = snd (scrollAnswerIntoView pending)
  /\ (window_defined = true ->
      snd (handleSubmit (fulfilled response) s)
      = [askQuestion (request s);
         setTimeout_scrollIntoView answer_region "smooth" "center" 0])
  /\ loading done = false
  /\ error done = None
  /\ request done = request s.
Proof.
  intros pending done. subst pending done.
  unfold handleSubmit, and_then.
  rewrite handleSubmit_call_state, !handleSubmit_settled_fulfilled,
    !scrollAnswerIntoView_effects. cbn.
  repeat split; try reflexivity.
  - intros first rest E. now rewrite E.
  - intros E. now rewrite E.
  - intros W. now rewrite W.
Qed.

(** C10. A failing submission leaves the selected citation and the
    expanded key as they were, from the click as from the rejection
    alone: of the state it writes [error], [answer],
    [answerHighlighted] and [loading] only, and it requests nothing
    beyond the call itself. *)
Theorem failing_submission_frame (err : Thrown) (s : AppState) :
  let settled := handleSubmit_settled (rejected err) s in
  let whole := handleSubmit (rejected err) s in
  selectedSource (fst settled) = selectedSource s
  /\ expandedKey (fst settled) = expandedKey s
  /\ request (fst settled) = request s
  /\ answer (fst settled) = None
  /\ snd settled = []
  /\ selectedSource (fst whole) = selectedSource s
  /\ expandedKey (fst whole) = expandedKey s
  /\ request (fst whole) = request s
  /\ snd whole = [askQuestion (request s)].
Proof.
  intros settled whole. subst settled whole.
  unfold handleSubmit, and_then.
  rewrite handleSubmit_call_state, !handleSubmit_settled_rejected. cbn.
  repeat split; reflexivity.
Qed.

End Submission.

(* ================================================================== *)
(** ** Citations *)

Section Citations.

Context {host : Host}.

Lemma toggleExpand_state (k : string) (s : AppState) :
  toggleExpand k s
  = ({| request := request s; answer := answer s;
        selectedSource := selectedSource s; loading := loading s;
        error := error s;
        expandedKey := match expandedKey s with
                       | Some k' => if k' =? k then None else Some k
                       | None => Some k
                       end;
        answerHighlighted := false |}, []).
Proof.
  unfold toggleExpand, and_then, read, clearAnswerHighlight. cbn.
  destruct (expandedKey s) as [k'|]; [destruct (k' =? k)|]; reflexivity.
Qed.

Lemma handleSourceClick_state (source : SourceChunk) (s : AppState) :
  handleSourceClick source s
  = ({| request := request s; answer := answer s;
        selectedSource := Some source; loading := loading s;
        error := error s; expandedKey := expandedKey s;
        answerHighlighted := false |},
     snd (scrollPreviewIntoView s)).
Proof.
  unfold handleSourceClick, and_then. cbn.
  rewrite !scrollPreviewIntoView_effects. reflexivity.
Qed.

(** C6. In every state the resolved source is the selected one when
    there is a selection; with no selection it is the first source of
    the answer held; with no selection and no answer, or an answer
    without sources, there is none, and the label shown is then the
    placeholder. After a response without sources has arrived there is
    no selection, so both hold. *)
Theorem resolvedSource_spec (s : AppState) :
  (forall selected, selectedSource s = Some selected ->
     resolvedSource s = Some selected)
  /\ (forall response first rest,
        selectedSource s = None -> answer s = Some response ->
        sources response = first :: rest ->
        resolvedSource s = Some first)
  /\ (selectedSource s = None ->
      (answer s = None
       \/ exists response, answer s = Some response /\ sources response = []) ->
      resolvedSource s = None /\ resolvedSourceLabel s = "Chưa chọn nguồn")
  /\ (forall response, sources response = [] ->
        let s' := fst (handleSubmit (fulfilled response) s) in
        answer s' = Some response
        /\ resolvedSource s' = None
        /\ resolvedSourceLabel s' = "Chưa chọn nguồn").
Proof.
  unfold resolvedSourceLabel, resolvedSource.
  split; [|split; [|split]].
  - intros selected E. now rewrite E.
  - intros response first rest E1 E2 E3. now rewrite E1, E2, E3.
  - intros E [A|[response [A1 A2]]]; rewrite E.
    + now rewrite A.
    + now rewrite A1, A2.
  - intros response E.
    unfold handleSubmit, and_then.
    rewrite handleSubmit_call_state, handleSubmit_settled_fulfilled.
    cbn. rewrite E. cbn. repeat split; reflexivity.
Qed.

(** C9, as the code has it. [toggleExpand k] sets [expandedKey] to
    [null] when it is [k] and to [k] otherwise. Done twice with the same
    key it gives back the key it found when that was [null] or [k]; when
    another key was expanded it ends at [null]. Any two rows shown
    expanded carry the same key. It turns the highlight off, requests
    no scroll, and leaves the selection and the rest of the state as
    they were. A row's first button runs it with the row's key. *)
Theorem toggleExpand_spec (k : string) (s : AppState) :
  let s1 := fst (toggleExpand k s) in
  let s2 := fst (toggleExpand k s1) in
  (expandedKey s = Some k -> expandedKey s1 = None)
  /\ (expandedKey s <> Some k -> expandedKey s1 = Some k)
  /\ (expandedKey s = None \/ expandedKey s = Some k ->
      expandedKey s2 = expandedKey s)
  /\ (forall j, expandedKey s = Some j -> j <> k -> expandedKey s2 = None)
  /\ (forall src i src' i',
        isExpanded s1 src i = true -> isExpanded s1 src' i' = true ->
        key src i = key src' i')
  /\ answerHighlighted s1 = false
  /\ selectedSource s1 = selectedSource s
  /\ answer s1 = answer s /\ request s1 = request s
  /\ loading s1 = loading s /\ error s1 = error s
  /\ snd (toggleExpand k s) = []
  /\ (forall w idx source,
        rendered_source (app w) idx = Some source ->
        handler_of (expand_click idx) w = Some (toggleExpand (key source idx))).
Proof.
  intros s1 s2. subst s1 s2. rewrite !toggleExpand_state. cbn.
  repeat split.
  - intros E. rewrite E. now rewrite String.eqb_refl.
  - intros NE. destruct (expandedKey s) as [k'|]; [|reflexivity].
    destruct (String.eqb_spec k' k); [subst; congruence|reflexivity].
  - intros [E|E]; rewrite E.
    + now rewrite String.eqb_refl.
    + now rewrite String.eqb_refl.
  - intros j E NE. rewrite E.
    destruct (String.eqb_spec j k); [contradiction|].
    now rewrite String.eqb_refl.
  - unfold isExpanded. cbn. intros src i src' i'.
    destruct (match expandedKey s with
              | Some k' => if k' =? k then None else Some k
              | None => Some k
              end) as [e|]; [|discriminate].
    intros E1 E2. apply String.eqb_eq in E1, E2. congruence.
  - intros w idx source E. unfold handler_of. now rewrite E.
Qed.

Lemma dispatch_runs_handler (e : Event) (w w' : Session) (effects : list Effect) :
  dispatch e w = Some (w', effects) ->
  exists h, handler_of e w = Some h
            /\ app w' = fst (h (app w)) /\ effects = snd (h (app w)).
Proof.
  unfold dispatch. destruct (handler_of e w) as [h|]; [|discriminate].
  destruct (h (app w)) as [s1 e1] eqn:Run. intros D. inversion D; subst.
  exists h. rewrite Run. repeat split.
Qed.

Lemma openFullText_state (v : string) (s : AppState) :
  fst (openFullText v s) = s.
Proof.
  unfold openFullText.
  destruct (resolveViewerUrl v) as [direct|];
    [destruct (truthy_string direct && window_defined)|]; reflexivity.
Qed.

Lemma and_then_clear (h : Handler) (s : AppState) :
  answerHighlighted (fst ((h ;; clearAnswerHighlight) s)) = false.
Proof. unfold and_then. destruct (h s). reflexivity. Qed.

Lemma quickView_highlight (source : SourceChunk) (s : AppState) :
  answerHighlighted (fst (quickView source s)) = false.
Proof.
  unfold quickView, and_then, clearAnswerHighlight, setAnswerHighlighted.
  now rewrite handleSourceClick_state.
Qed.

(** C3, as the code has it. Of the events that can happen in a state,
    those that take the highlight from on to off are an interaction with
    the answer region, a submission settling in failure, the selection
    of a citation, the toggle of an excerpt, and an edit of the
    question; each of them leaves the highlight off, and the other two
    events (the submit click, a submission settling in success) leave a
    highlight that is on as it is. *)
Theorem highlight_transitions (e : Event) (w w' : Session) (effects : list Effect) :
  dispatch e w = Some (w', effects) ->
  (clears_highlight e = true -> answerHighlighted (app w') = false)
  /\ (clears_highlight e = false ->
      answerHighlighted (app w) = true -> answerHighlighted (app w') = true)
  /\ (answerHighlighted (app w) = true -> answerHighlighted (app w') = false ->
      clears_highlight e = true).
Proof.
  intros D. apply dispatch_runs_handler in D. destruct D as [h [H [-> _]]].
  assert (G : (clears_highlight e = true -> answerHighlighted (fst (h (app w))) = false)
           /\ (clears_highlight e = false ->
               answerHighlighted (app w) = true ->
               answerHighlighted (fst (h (app w))) = true)).
  { unfold handler_of in H.
    destruct e as [v| |[response|err]| | |idx|idx|idx|]; simpl clears_highlight;
      (split; [intros C; try discriminate C | intros C On; try discriminate C]).
    - inversion H; subst. reflexivity.
    - destruct (loading (app w)); [discriminate|]. inversion H; subst. exact On.
    - destruct (in_flight w); [discriminate|]. inversion H; subst.
      now rewrite handleSubmit_settled_fulfilled.
    - destruct (in_flight w); [discriminate|]. inversion H; subst.
      now rewrite handleSubmit_settled_rejected.
    - destruct (answer (app w)); [|discriminate]. inversion H; subst. reflexivity.
    - destruct (answer (app w)); [|discriminate]. inversion H; subst. reflexivity.
    - destruct (rendered_source (app w) idx) as [source|]; [|discriminate].
      inversion H; subst. apply and_then_clear.
    - destruct (rendered_source (app w) idx) as [source|]; [|discriminate].
      inversion H; subst. now rewrite toggleExpand_state.
    - destruct (rendered_source (app w) idx) as [source|]; [|discriminate].
      inversion H; subst. apply quickView_highlight.
    - destruct (answer (app w)); [|discriminate].
      destruct (chain (resolvedSource (app w)) viewer_url) as [| |v];
        try discriminate.
      destruct (truthy_string v); [|discriminate].
      inversion H; subst. apply and_then_clear. }
  destruct G as [G1 G2]. repeat split; auto.
  intros On Off. destruct (clears_highlight e) eqn:C; [reflexivity|].
  rewrite (G2 eq_refl On) in Off. discriminate.
Qed.

End Citations.

(* ================================================================== *)
(** ** Labels and active rows *)

Section Rows.

Context {host : Host}.

(** C4, as the code has it. With no resolved source the label shown is
    the placeholder "Chưa chọn nguồn". Otherwise it is the source's
    label, followed by " – trang " and the page number exactly when the
    page number is present and not zero; the page number, a safe
    integer, is printed by its decimal digits. For a response whose
    first source has label "A" and page 3, the label shown after the
    submission is "A – trang 3". *)
Theorem resolvedSourceLabel_spec (s : AppState) :
  (resolvedSource s = None -> resolvedSourceLabel s = "Chưa chọn nguồn")
  /\ (forall r n,
        resolvedSource s = Some r -> page_number r = value n -> n <> 0%Z ->
        isSafeInteger n ->
        resolvedSourceLabel s = label r ++ " – trang " ++ Number_toString n)
  /\ (forall r,
        resolvedSource s = Some r ->
        page_number r = undefined \/ page_number r = null
        \/ page_number r = value 0%Z ->
        resolvedSourceLabel s = label r)
  /\ (forall text first second,
        label first = "A" -> page_number first = value 3%Z ->
        let response := {| Types.answer := text; sources := [first; second] |} in
        let s' := fst (handleSubmit (fulfilled response) s) in
        resolvedSource s' = Some first
        /\ resolvedSourceLabel s' = "A – trang 3").
Proof.
  unfold resolvedSourceLabel.
  split; [|split; [|split]].
  - intros E. now rewrite E.
  - intros r n E P NZ _. rewrite E, P. unfold truthy_number.
    destruct (Z.eqb_spec n 0); [contradiction|reflexivity].
  - intros r E [P|[P|P]]; rewrite E, P; apply append_empty_r.
  - intros text first second L P.
    unfold handleSubmit, and_then.
    rewrite handleSubmit_call_state, handleSubmit_settled_fulfilled.
    unfold resolvedSource. cbn. rewrite L, P. split; reflexivity.
Qed.

(** C1, as the code has it. A row is active exactly when the resolved
    source has the row's [viewer_url] and the row's label, or the
    selected source has the row's label; the key of the row plays no
    part. Right after a source is selected it is the resolved source,
    its row is active, the highlight is off, and another row is active
    exactly when it carries the same label: so of two sources labelled
    "A" and "B", selecting "B" makes the row of "B" active and that of
    "A" not. *)
Theorem isActive_spec (s : AppState) (source : SourceChunk) :
  (isActive s source = true <->
     (exists r, resolvedSource s = Some r
                /\ viewer_url r = viewer_url source /\ label r = label source)
     \/ (exists c, selectedSource s = Some c /\ label c = label source))
  /\ (forall b,
        let s' := fst (handleSourceClick b s) in
        resolvedSource s' = Some b
        /\ isActive s' b = true
        /\ answerHighlighted s' = false
        /\ (forall a, isActive s' a = true <-> label a = label b)
        /\ (forall a, label a = "A" -> label b = "B" -> isActive s' a = false)).
Proof.
  split.
  - unfold isActive. rewrite orb_true_iff, andb_true_iff, !strict_eq_true.
    split.
    + intros [[V L]|L].
      * left. destruct (resolvedSource s) as [r|]; [|discriminate L].
        exists r. cbn in V, L. repeat split; congruence.
      * right. destruct (selectedSource s) as [c|]; [|discriminate L].
        exists c. cbn in L. split; congruence.
    + intros [[r [E [V L]]]|[c [E L]]]; rewrite E; cbn.
      * left. split; congruence.
      * right. congruence.
  - intros b. cbv zeta. rewrite handleSourceClick_state.
    unfold isActive, resolvedSource. cbn.
    assert (A : forall a,
               strict_eq (viewer_url b) (viewer_url a) && (label b =? label a)
               || (label b =? label a) = true <-> label a = label b).
    { intros a. destruct (String.eqb_spec (label b) (label a)) as [E|NE].
      - rewrite orb_true_r. split; congruence.
      - rewrite andb_false_r. cbn. split; [discriminate|congruence]. }
    repeat split.
    + apply A. reflexivity.
    + apply A.
    + apply A.
    + intros a La Lb.
      destruct (strict_eq (viewer_url b) (viewer_url a) && (label b =? label a)
                || (label b =? label a)) eqn:E; [|reflexivity].
      apply A in E. rewrite La, Lb in E. discriminate.
Qed.

(** C2, as the code has it. The full text button is there when an answer
    is shown and the resolved source has a non-empty [viewer_url]. With
    a window, and the resolver returning a non-empty URL for that
    [viewer_url], its click opens exactly the URL the resolver returned,
    as returned, under the target "_blank" with the features
    "noopener,noreferrer", and nothing else is requested; when the
    resolver returns nothing or an empty string, or there is no window,
    nothing is opened. The click also reaches the answer card and turns
    the highlight off; nothing else of the state changes. *)
Theorem full_text_click_opens (w : Session) (v : string) :
  answer (app w) <> None ->
  chain (resolvedSource (app w)) viewer_url = value v ->
  v <> "" ->
  exists effects,
    dispatch full_text_click w
    = Some ({| app := fst (clearAnswerHighlight (app w));
               in_flight := in_flight w |}, effects)
    /\ (forall direct,
          resolveViewerUrl v = Some direct -> direct <> "" ->
          window_defined = true ->
          effects = [window_open direct "_blank" "noopener,noreferrer"])
    /\ (resolveViewerUrl v = None \/ resolveViewerUrl v = Some ""
        \/ window_defined = false ->
        effects = []).
Proof.
  intros A V NE.
  exists (snd (openFullText v (app w))).
  split; [|split].
  - unfold dispatch, handler_of. rewrite V.
    destruct (answer (app w)); [|congruence].
    apply truthy_string_true in NE. rewrite NE.
    unfold and_then.
    pose proof (openFullText_state v (app w)) as F.
    destruct (openFullText v (app w)) as [s1 e1]. cbn in F. subst s1.
    cbn. now rewrite app_nil_r.
  - intros direct R D W. unfold openFullText. rewrite R, W.
    apply truthy_string_true in D. now rewrite D.
  - unfold openFullText. intros [R|[R|W]].
    + now rewrite R.
    + now rewrite R.
    + rewrite W. destruct (resolveViewerUrl v) as [direct|]; [|reflexivity].
      now rewrite andb_false_r.
Qed.

End Rows.

(* ================================================================== *)
(** ** The preview link *)

Section Preview.

Context {host : Host}.

(** The link built from a URL that parses. *)
Lemma previewUrl_of_parsed (raw absolute : string) (url : URL) :
  raw <> "" -> resolveViewerUrl raw = Some absolute -> absolute <> "" ->
  URL_new parse_url_without_fragment absolute = Some url ->
  previewUrl_of (value raw)
  = Some match fragment url with
         | None => href_without_fragment url
         | Some "" => href_without_fragment url ++ "#"
         | Some f =>
             let rest :=
               URLSearchParams_toString
                 (URLSearchParams_delete "search" (URLSearchParams_new f)) in
             if rest =? "" then href_without_fragment url
             else href_without_fragment url ++ String "#" rest
         end.
Proof.
  intros R Res A U. unfold previewUrl_of.
  apply truthy_string_true in R, A. rewrite R, Res, A, U. simpl negb. cbv iota.
  f_equal. destruct url as [base [[|c f]|]]; unfold URL_hash; simpl fragment.
  - reflexivity.
  - simpl String.length. simpl Nat.ltb. cbv iota. simpl slice1.
    unfold URLSearchParams_toString, truthy_string.
    destruct (urlencoded_serialize
                (URLSearchParams_delete "search" (URLSearchParams_new (String c f)))
              =? "") eqn:E; simpl negb; cbv iota.
    + reflexivity.
    + rewrite URL_set_hash_serialized. reflexivity.
  - reflexivity.
Qed.

(** The link built from a URL that does not parse. *)
Lemma previewUrl_of_malformed (raw absolute : string) :
  raw <> "" -> resolveViewerUrl raw = Some absolute -> absolute <> "" ->
  URL_new parse_url_without_fragment absolute = None ->
  previewUrl_of (value raw) = Some (fst (split_hash absolute)).
Proof.
  intros R Res A U. unfold previewUrl_of.
  apply truthy_string_true in R, A. now rewrite R, Res, A, U.
Qed.

(** C5, as the code has it. The link is none exactly when [viewer_url]
    is missing, [null] or empty, or the resolver returns nothing or an
    empty string for it. Otherwise, when the absolute URL parses: a
    non-empty fragment is read as a list of parameters, every parameter
    named [search] is dropped, and what remains is serialized as the new
    fragment, with no ['#'] at all when nothing remains; a URL without
    fragment is serialized as parsed, and so is one that ends in a bare
    ['#']. When the absolute URL does not parse, the link is that string
    up to its first ['#']. With a resolver and a parser that leave
    "https://host/doc" and its fragment as they are,
    "https://host/doc#page=2&search=foo" gives "https://host/doc#page=2"
    and "https://host/doc#search=foo" gives "https://host/doc". *)
Theorem previewUrl_of_spec (viewer : optional string) :
  (previewUrl_of viewer = None <->
     viewer = undefined \/ viewer = null \/ viewer = value ""
     \/ exists raw, viewer = value raw
                    /\ (resolveViewerUrl raw = None
                        \/ resolveViewerUrl raw = Some ""))
  /\ (forall raw absolute,
        viewer = value raw -> raw <> "" ->
        resolveViewerUrl raw = Some absolute -> absolute <> "" ->
        (forall url,
           URL_new parse_url_without_fragment absolute = Some url ->
           (forall f, fragment url = Some f -> f <> "" ->
              let kept := URLSearchParams_delete "search" (URLSearchParams_new f) in
              (forall p, In p kept <-> In p (URLSearchParams_new f) /\ fst p <> "search")
              /\ (URLSearchParams_toString kept <> "" ->
                  previewUrl_of viewer
                  = Some (href_without_fragment url
                          ++ String "#" (URLSearchParams_toString kept)))
              /\ (URLSearchParams_toString kept = "" ->
                  previewUrl_of viewer = Some (href_without_fragment url)))
           /\ (fragment url = None ->
               previewUrl_of viewer = Some (href_without_fragment url))
           /\ (fragment url = Some "" ->
               previewUrl_of viewer = Some (href_without_fragment url ++ "#")))
        /\ (URL_new parse_url_without_fragment absolute = None ->
            exists prefix,
              previewUrl_of viewer = Some prefix
              /\ hash_free prefix = true
              /\ (absolute = prefix
                  \/ exists rest, absolute = prefix ++ String "#" rest)))
  /\ (resolveViewerUrl "https://host/doc#page=2&search=foo"
      = Some "https://host/doc#page=2&search=foo" ->
      resolveViewerUrl "https://host/doc#search=foo"
      = Some "https://host/doc#search=foo" ->
      parse_url_without_fragment "https://host/doc" = Some "https://host/doc" ->
      previewUrl_of (value "https://host/doc#page=2&search=foo")
      = Some "https://host/doc#page=2"
      /\ previewUrl_of (value "https://host/doc#search=foo")
         = Some "https://host/doc").
Proof.
  split; [|split].
  - destruct viewer as [| |raw].
    + split; [auto|reflexivity].
    + split; [auto|reflexivity].
    + unfold previewUrl_of. split.
      * destruct (truthy_string raw) eqn:T.
        -- simpl. intros H. right. right. right. exists raw. split; [reflexivity|].
           destruct (resolveViewerUrl raw) as [absolute|]; [right|now left].
           destruct (truthy_string absolute) eqn:T';
             [|apply truthy_string_false in T'; now subst].
           simpl in H.
           destruct (URL_new parse_url_without_fragment absolute); discriminate H.
        -- intros _. apply truthy_string_false in T. subst. auto.
      * intros [H|[H|[H|[raw' [E [H|H]]]]]]; try discriminate H.
        -- inversion H; subst. reflexivity.
        -- inversion E; subst. destruct (truthy_string raw'); simpl; [|reflexivity].
           now rewrite H.
        -- inversion E; subst. destruct (truthy_string raw'); simpl; [|reflexivity].
           now rewrite H.
  - intros raw absolute -> R Res A. split.
    + intros url U. pose proof (previewUrl_of_parsed raw absolute url R Res A U) as P.
      split; [|split].
      * intros f F NE. cbv zeta. split; [|split].
        -- intros p. unfold URLSearchParams_delete. rewrite filter_In.
           rewrite negb_true_iff, String.eqb_neq. reflexivity.
        -- intros K. rewrite P, F. destruct f as [|c f]; [contradiction|].
           cbv zeta. apply String.eqb_neq in K. now rewrite K.
        -- intros K. rewrite P, F. destruct f as [|c f]; [contradiction|].
           cbv zeta. rewrite K. reflexivity.
      * intros F. now rewrite P, F.
      * intros F. now rewrite P, F.
    + intros U. exists (fst (split_hash absolute)).
      split; [now apply previewUrl_of_malformed|].
      destruct (split_hash_spec absolute) as [H1 H2]. split; [exact H1|].
      destruct (snd (split_hash absolute)) as [rest|]; [right; now exists rest|now left].
  - intros R1 R2 P. split.
    + rewrite (previewUrl_of_parsed
                 "https://host/doc#page=2&search=foo"
                 "https://host/doc#page=2&search=foo"
                 {| href_without_fragment := "https://host/doc";
                    fragment := Some "page=2&search=foo" |}
                 ltac:(discriminate) R1 ltac:(discriminate)).
      * reflexivity.
      * unfold URL_new. simpl. now rewrite P.
    + rewrite (previewUrl_of_parsed
                 "https://host/doc#search=foo" "https://host/doc#search=foo"
                 {| href_without_fragment := "https://host/doc";
                    fragment := Some "search=foo" |}
                 ltac:(discriminate) R2 ltac:(discriminate)).
      * reflexivity.
      * unfold URL_new. simpl. now rewrite P.
Qed.

End Preview.

(* ================================================================== *)
(** ** The model at work *)

(** C1. Right after an answer naming two pages of one book under one
    label has arrived, the first is the resolved source and the row of
    the second is active, though the two rows have different keys
    whatever their positions. *)
Lemma isActive_ignores_key :
  run (host := browser_host)
      [submit_click;
       ask_settled (fulfilled {| Types.answer := "an answer";
                                 sources := [source_page1; source_page2] |})]
      initial_session
  = Some {| app := state_two_pages; in_flight := 0 |}
  /\ resolvedSource state_two_pages = Some source_page1
  /\ isActive state_two_pages source_page2 = true
  /\ key source_page1 0 = "book.pdf-1"
  /\ key source_page2 1 = "book.pdf-2"
  /\ (forall i j : nat, key source_page2 i <> key source_page1 j).
Proof. repeat split. intros i j H. discriminate H. Qed.

(** C2. For a source linked to "https://host/doc#search=foo" the
    preview shows "https://host/doc", and the full text button opens the
    link with its [search] parameter. *)
Lemma full_text_keeps_search :
  previewUrl (host := browser_host) (app session_linked) = Some "https://host/doc"
  /\ option_map snd (dispatch (host := browser_host) full_text_click session_linked)
     = Some [window_open "https://host/doc#search=foo" "_blank" "noopener,noreferrer"].
Proof. split; reflexivity. Qed.

(** The full text button at work on that source. *)
Lemma full_text_click_opens_witness :
  exists effects,
    dispatch (host := browser_host) full_text_click session_linked
    = Some ({| app := fst (clearAnswerHighlight (app session_linked));
               in_flight := 0 |}, effects)
    /\ (forall direct,
          Some "https://host/doc#search=foo" = Some direct -> direct <> "" ->
          true = true ->
          effects = [window_open direct "_blank" "noopener,noreferrer"])
    /\ (Some "https://host/doc#search=foo" = None
        \/ Some "https://host/doc#search=foo" = Some ""
        \/ true = false ->
        effects = []).
Proof.
  apply (full_text_click_opens (host := browser_host) session_linked
           "https://host/doc#search=foo").
  - discriminate.
  - reflexivity.
  - discriminate.
Defined.

(** C3. The session right after an answer arrived is highlighted, and
    typing in the question box turns the highlight off. *)
Lemma question_change_clears_highlight :
  run (host := browser_host)
      [submit_click; ask_settled (fulfilled response_AB)] initial_session
  = Some session_answered
  /\ answerHighlighted (app session_answered) = true
  /\ dispatch (host := browser_host) (question_change "x") session_answered
     = Some (session_edited, [])
  /\ answerHighlighted (app session_edited) = false.
Proof. repeat split. Qed.

(** The edit of the question among the transitions of the highlight. *)
Lemma highlight_transitions_witness :
  (clears_highlight (question_change "x") = true ->
   answerHighlighted (app session_edited) = false)
  /\ (clears_highlight (question_change "x") = false ->
      answerHighlighted (app session_answered) = true ->
      answerHighlighted (app session_edited) = true)
  /\ (answerHighlighted (app session_answered) = true ->
      answerHighlighted (app session_edited) = false ->
      clears_highlight (question_change "x") = true).
Proof.
  apply (highlight_transitions (host := browser_host)
           (question_change "x") session_answered session_edited []).
  reflexivity.
Defined.

(** C4. For the sources "A" with page 3 and "B" without page, the label
    shown after the submission ends in "trang 3", not in "page 3". *)
Lemma label_suffix_is_trang :
  resolvedSourceLabel
    (fst (handleSubmit (host := browser_host) (fulfilled response_AB) initial_state))
  = "A – trang 3"
  /\ resolvedSourceLabel
       (fst (handleSubmit (host := browser_host) (fulfilled response_AB) initial_state))
     <> "A – page 3".
Proof. split; [reflexivity|discriminate]. Qed.

(** C5. An empty [viewer_url] gives no link although it is present and
    the resolver would return a URL for it; and a URL ending in a bare
    ['#'] keeps it. *)
Lemma previewUrl_of_empty_viewer_url :
  resolveViewerUrl (Host := single_document_host) "" = Some "https://host/doc"
  /\ previewUrl_of (host := single_document_host) (value "") = None
  /\ previewUrl_of (host := browser_host) (value "https://host/doc#")
     = Some "https://host/doc#".
Proof. repeat split. Qed.

(** The two sample links in a browser whose resolver returns absolute
    URLs as they are. *)
Lemma previewUrl_of_spec_witness :
  previewUrl_of (host := browser_host) (value "https://host/doc#page=2&search=foo")
  = Some "https://host/doc#page=2"
  /\ previewUrl_of (host := browser_host) (value "https://host/doc#search=foo")
     = Some "https://host/doc".
Proof.
  apply (proj2 (proj2 (previewUrl_of_spec (host := browser_host) undefined)));
    reflexivity.
Defined.

(** C7. An [Error] thrown with an empty message carries no message,
    yet the rejection leaves the empty string in [error], not the
    generic text; nothing is then shown of the failure. *)
Lemma empty_message_kept :
  option_map (fun r => error (app (fst r)))
    (dispatch (host := browser_host)
       (ask_settled (rejected (Error_instance ""))) session_loading)
  = Some (Some "")
  /\ Some "" <> Some "Failed to reach backend"
  /\ option_map (fun r => error_text (app (fst r)))
       (dispatch (host := browser_host)
          (ask_settled (rejected (Error_instance ""))) session_loading)
     = Some None.
Proof. repeat split. discriminate. Qed.

(** C9. With the excerpt of the first row expanded, toggling the second
    row twice leaves nothing expanded: the key found before is not
    restored. *)
Lemma toggleExpand_twice_forgets :
  option_map (fun w => expandedKey (app w))
    (run (host := browser_host) [expand_click 0] session_answered)
  = Some (Some "A-3")
  /\ option_map (fun w => expandedKey (app w))
       (run (host := browser_host)
            [expand_click 0; expand_click 1; expand_click 1] session_answered)
     = Some None
  /\ expandedKey
       (fst (toggleExpand "B-1"
               (fst (toggleExpand "B-1"
                       (fst (toggleExpand "A-3" (app session_answered)))))))
     <> expandedKey (fst (toggleExpand "A-3" (app session_answered))).
Proof. repeat split. discriminate. Qed.

(* ================================================================== *)
(** ** Sessions reached from the initial one *)

Section Reachable.

Context {host : Host}.

Lemma run_app (t1 t2 : list Event) (w : Session) :
  run (t1 ++ t2)%list w
  = match run t1 w with
    | Some w' => run t2 w'
    | None => None
    end.
Proof.
  revert w. induction t1 as [|e t1 IH]; intros w; simpl; [reflexivity|].
  destruct (dispatch e w) as [[w' effects]|]; [apply IH|reflexivity].
Qed.

(** A property of the initial session that every event keeps holds of
    every reachable session. *)
Lemma reachable_ind (P : Session -> Prop) :
  P initial_session ->
  (forall e w w' effects, P w -> dispatch e w = Some (w', effects) -> P w') ->
  forall w, reachable w -> P w.
Proof.
  intros P0 Step w [trace R].
  assert (G : forall trace w0 w1, P w0 -> run trace w0 = Some w1 -> P w1).
  { clear trace R. induction trace as [|e trace IH]; intros w0 w1 H0 R; simpl in R.
    - inversion R; subst. exact H0.
    - destruct (dispatch e w0) as [[w' effects]|] eqn:D; [|discriminate].
      apply (IH w' w1); [|exact R]. exact (Step e w0 w' effects H0 D). }
  exact (G trace initial_session w P0 R).
Qed.

Lemma reachable_step (e : Event) (w w' : Session) (effects : list Effect) :
  reachable w -> dispatch e w = Some (w', effects) -> reachable w'.
Proof.
  intros [trace R] D. exists (trace ++ [e])%list.
  rewrite run_app, R. simpl. now rewrite D.
Qed.

(** The state and the count of calls after each event that can happen. *)
Lemma dispatch_cases (e : Event) (w w' : Session) (effects : list Effect) :
  dispatch e w = Some (w', effects) ->
  match e with
  | question_change v =>
      w' = {| app := fst (handleInputChange v (app w)); in_flight := in_flight w |}
  | submit_click =>
      loading (app w) = false
      /\ w' = {| app := fst (handleSubmit_call (app w));
                 in_flight := S (in_flight w) |}
  | ask_settled outcome =>
      in_flight w <> 0%nat
      /\ w' = {| app := fst (handleSubmit_settled outcome (app w));
                 in_flight := pred (in_flight w) |}
  | answer_click | answer_focus =>
      answer (app w) <> None
      /\ w' = {| app := fst (clearAnswerHighlight (app w));
                 in_flight := in_flight w |}
  | citation_click idx | quick_view_click idx =>
      exists source,
        rendered_source (app w) idx = Some source
        /\ w' = {| app := fst (handleSourceClick source (app w));
                   in_flight := in_flight w |}
  | expand_click idx =>
      exists source,
        rendered_source (app w) idx = Some source
        /\ w' = {| app := fst (toggleExpand (key source idx) (app w));
                   in_flight := in_flight w |}
  | full_text_click =>
      answer (app w) <> None
      /\ w' = {| app := fst (clearAnswerHighlight (app w));
                 in_flight := in_flight w |}
  end.
Proof.
  unfold dispatch, handler_of.
  destruct e as [v| |outcome| | |idx|idx|idx|].
  - intros D. inversion D; subst. reflexivity.
  - destruct (loading (app w)); [discriminate|].
    intros D. inversion D; subst. split; reflexivity.
  - destruct (in_flight w) as [|n]; [discriminate|].
    destruct (handleSubmit_settled outcome (app w)) as [s1 e1].
    intros D. inversion D; subst. split; [discriminate|reflexivity].
  - destruct (answer (app w)); [|discriminate].
    intros D. inversion D; subst. split; [discriminate|reflexivity].
  - destruct (answer (app w)); [|discriminate].
    intros D. inversion D; subst. split; [discriminate|reflexivity].
  - destruct (rendered_source (app w) idx) as [source|]; [|discriminate].
    simpl option_map. cbv iota. unfold and_then, clearAnswerHighlight.
    rewrite handleSourceClick_state. simpl.
    intros D. inversion D; subst. exists source.
    rewrite handleSourceClick_state. split; reflexivity.
  - destruct (rendered_source (app w) idx) as [source|]; [|discriminate].
    simpl option_map. cbv iota.
    rewrite toggleExpand_state.
    intros D. inversion D; subst. exists source.
    rewrite toggleExpand_state. split; reflexivity.
  - destruct (rendered_source (app w) idx) as [source|]; [|discriminate].
    simpl option_map. cbv iota.
    unfold quickView, and_then, clearAnswerHighlight, setAnswerHighlighted.
    rewrite !handleSourceClick_state. simpl.
    intros D. inversion D; subst. exists source.
    rewrite handleSourceClick_state. split; reflexivity.
  - destruct (answer (app w)); [|discriminate].
    destruct (chain (resolvedSource (app w)) viewer_url) as [| |v];
      try discriminate.
    destruct (truthy_string v); [|discriminate].
    unfold and_then.
    pose proof (openFullText_state v (app w)) as F.
    destruct (openFullText v (app w)) as [s1 e1]. simpl in F. subst s1.
    simpl. intros D. inversion D; subst. split; [discriminate|reflexivity].
Qed.

Lemma rendered_source_In (s : AppState) (idx : nat) (source : SourceChunk) :
  rendered_source s idx = Some source ->
  exists response, answer s = Some response /\ In source (sources response).
Proof.
  unfold rendered_source. destruct (answer s) as [response|]; [|discriminate].
  intros N. exists response. split; [reflexivity|].
  now apply nth_error_In with idx.
Qed.

Lemma invariant_initial : session_invariant initial_session.
Proof.
  constructor; simpl; try reflexivity; try discriminate.
  intros H. now contradiction H.
Qed.

Lemma invariant_step (e : Event) (w w' : Session) (effects : list Effect) :
  session_invariant w -> dispatch e w = Some (w', effects) ->
  session_invariant w'.
Proof.
  intros I D. apply dispatch_cases in D. destruct I.
  destruct e as [v| |[response|err]| | |idx|idx|idx|].
  - subst w'.
    constructor; simpl;
      [ assumption | assumption | assumption | assumption
      | assumption | assumption | | discriminate ].
    intros E. destruct (inv_error0 E) as [A' [L' _]]. repeat split; assumption.
  - destruct D as [L ->]. rewrite handleSubmit_call_state.
    rewrite L in inv_in_flight0.
    constructor; simpl;
      [ now rewrite inv_in_flight0 | assumption | assumption | assumption
      | assumption | assumption | | assumption ].
    intros E. now contradiction E.
  - destruct D as [N ->]. rewrite handleSubmit_settled_fulfilled.
    assert (L : loading (app w) = true).
    { destruct (loading (app w)); [reflexivity|congruence]. }
    constructor; simpl;
      [ now rewrite inv_in_flight0, L | assumption | assumption | assumption
      | | | | discriminate ].
    + intros r selected E S. inversion E; subst.
      destruct (sources r); [discriminate|]. inversion S; subst. now left.
    + intros r E S. inversion E; subst.
      destruct (sources r); [reflexivity|discriminate].
    + intros E. destruct (inv_error0 E) as [_ [L' _]]. congruence.
  - destruct D as [N ->]. rewrite handleSubmit_settled_rejected.
    assert (L : loading (app w) = true).
    { destruct (loading (app w)); [reflexivity|congruence]. }
    constructor; simpl;
      [ now rewrite inv_in_flight0, L | assumption | assumption | assumption
      | discriminate | discriminate | | discriminate ].
    intros _. repeat split.
  - destruct D as [A ->].
    constructor; simpl;
      [ assumption | assumption | assumption | assumption
      | assumption | assumption | | discriminate ].
    intros E. destruct (inv_error0 E) as [A' [L' _]]. repeat split; assumption.
  - destruct D as [A ->].
    constructor; simpl;
      [ assumption | assumption | assumption | assumption
      | assumption | assumption | | discriminate ].
    intros E. destruct (inv_error0 E) as [A' [L' _]]. repeat split; assumption.
  - destruct D as [source [R ->]]. rewrite handleSourceClick_state.
    apply rendered_source_In in R. destruct R as [response [A I]].
    constructor; simpl;
      [ assumption | assumption | assumption | assumption
      | | discriminate | | discriminate ].
    + intros r selected E S. inversion S; subst. congruence.
    + intros E. destruct (inv_error0 E) as [A' [L' _]]. repeat split; assumption.
  - destruct D as [source [R ->]]. rewrite toggleExpand_state.
    constructor; simpl;
      [ assumption | assumption | assumption | assumption
      | assumption | assumption | | discriminate ].
    intros E. destruct (inv_error0 E) as [A' [L' _]]. repeat split; assumption.
  - destruct D as [source [R ->]]. rewrite handleSourceClick_state.
    apply rendered_source_In in R. destruct R as [response [A I]].
    constructor; simpl;
      [ assumption | assumption | assumption | assumption
      | | discriminate | | discriminate ].
    + intros r selected E S. inversion S; subst. congruence.
    + intros E. destruct (inv_error0 E) as [A' [L' _]]. repeat split; assumption.
  - destruct D as [A ->].
    constructor; simpl;
      [ assumption | assumption | assumption | assumption
      | assumption | assumption | | discriminate ].
    intros E. destruct (inv_error0 E) as [A' [L' _]]. repeat split; assumption.
Qed.

Lemma reachable_invariant (w : Session) : reachable w -> session_invariant w.
Proof.
  apply reachable_ind; [exact invariant_initial|].
  intros e w0 w1 effects. apply invariant_step.
Qed.

End Reachable.

(* ================================================================== *)
(** ** What holds in every reachable session *)

Section ReachableFacts.

Context {host : Host}.

(** X1. The submit button is disabled while [loading], so at most one
    call of [askQuestion] is in flight in a reachable session: one
    while [loading], none otherwise; the button is dead exactly while
    one is in flight, and a settlement can happen exactly then. *)
Theorem one_call_in_flight (w : Session) :
  reachable w ->
  in_flight w = (if loading (app w) then 1 else 0)%nat
  /\ (in_flight w <= 1)%nat
  /\ (dispatch submit_click w = None <-> in_flight w = 1%nat)
  /\ (forall outcome,
        dispatch (ask_settled outcome) w <> None <-> loading (app w) = true).
Proof.
  intros R. destruct (reachable_invariant w R) as [F _ _ _ _ _ _ _].
  split; [exact F|]. split; [|split].
  - rewrite F. destruct (loading (app w)); auto.
  - unfold dispatch, handler_of. rewrite F.
    destruct (loading (app w)); split; intro H;
      try reflexivity; discriminate H.
  - intros outcome. unfold dispatch, handler_of. rewrite F.
    destruct (loading (app w)).
    + destruct (handleSubmit_settled outcome (app w)).
      split; [reflexivity|discriminate].
    + split; [intros H; now contradiction H|discriminate].
Qed.

(** X2. Nothing writes [top_k], [pool_size] or [rerank]: in a reachable
    session they are 10, 20 and [true], and a submit click hands
    [askQuestion] the question as typed with exactly these values. *)
Theorem request_parameters_fixed (w : Session) :
  reachable w ->
  top_k (request (app w)) = 10%Z
  /\ pool_size (request (app w)) = 20%Z
  /\ rerank (request (app w)) = true
  /\ (forall w' effects,
        dispatch submit_click w = Some (w', effects) ->
        effects = [askQuestion {| question := question (request (app w));
                                  top_k := 10; pool_size := 20;
                                  rerank := true |}]).
Proof.
  intros R. destruct (reachable_invariant w R) as [_ T P K _ _ _ _].
  repeat split; try assumption.
  intros w' effects. unfold dispatch, handler_of.
  destruct (loading (app w)); [discriminate|].
  rewrite handleSubmit_call_state. intros D. inversion D; subst.
  destruct (request (app w)) as [q t p k]. simpl in *. now subst.
Qed.

Lemma resolved_is_selected (w : Session) :
  reachable w -> resolvedSource (app w) = selectedSource (app w).
Proof.
  intros R. destruct (reachable_invariant w R) as [_ _ _ _ _ N _ _].
  unfold resolvedSource.
  destruct (selectedSource (app w)) as [c|]; [reflexivity|].
  destruct (answer (app w)) as [r|]; [|reflexivity].
  now rewrite (N r eq_refl eq_refl).
Qed.

(** X3. In a reachable session the resolved source is the selected one:
    the fallback to the first source of the answer never decides. While
    an answer is held, the selection is one of its sources, and there
    is no selection exactly when the answer has no sources. *)
Theorem selection_tracks_answer (w : Session) :
  reachable w ->
  resolvedSource (app w) = selectedSource (app w)
  /\ (forall response,
        answer (app w) = Some response ->
        (forall selected,
           selectedSource (app w) = Some selected ->
           In selected (sources response))
        /\ (selectedSource (app w) = None <-> sources response = [])).
Proof.
  intros R. split; [now apply resolved_is_selected|].
  destruct (reachable_invariant w R) as [_ _ _ _ L N _ _].
  intros response A. split; [intros selected; now apply L|].
  split; [now apply N|].
  intros E. destruct (selectedSource (app w)) as [c|] eqn:S; [|reflexivity].
  specialize (L response c A eq_refl). rewrite E in L. contradiction.
Qed.

(** X4. In a reachable session an error is never held together with an
    answer, with [loading], or with the highlight; and the highlight is
    on only while an answer is held. *)
Theorem error_excludes_answer (w : Session) :
  reachable w ->
  (forall message,
     error (app w) = Some message ->
     answer (app w) = None /\ loading (app w) = false
     /\ answerHighlighted (app w) = false)
  /\ (answerHighlighted (app w) = true ->
      exists response, answer (app w) = Some response).
Proof.
  intros R. destruct (reachable_invariant w R) as [_ _ _ _ _ _ E H].
  split.
  - intros message M. apply E. rewrite M. discriminate.
  - intros On. specialize (H On).
    destruct (answer (app w)) as [r|]; [now exists r|now contradiction H].
Qed.

(** X5. In a reachable session a row is active exactly when its label
    is the label of the selected source; and while an answer with
    sources is held, the row of the selected source is among them and
    is active. *)
Theorem active_rows_reachable (w : Session) (source : SourceChunk) :
  reachable w ->
  (isActive (app w) source = true <->
     exists selected,
       selectedSource (app w) = Some selected /\ label selected = label source)
  /\ (forall response first rest,
        answer (app w) = Some response -> sources response = first :: rest ->
        exists row, In row (sources response) /\ isActive (app w) row = true).
Proof.
  intros R.
  assert (A : forall row,
             isActive (app w) row = true <->
             exists selected,
               selectedSource (app w) = Some selected
               /\ label selected = label row).
  { intros row. unfold isActive. rewrite (resolved_is_selected w R).
    rewrite orb_true_iff, andb_true_iff, !strict_eq_true.
    destruct (selectedSource (app w)) as [c|]; simpl.
    - split.
      + intros [[_ L]|L]; exists c; split; congruence.
      + intros [c' [E L]]. right. congruence.
    - split.
      + intros [[_ L]|L]; discriminate L.
      + intros [c' [E _]]. discriminate E. }
  split; [apply A|].
  intros response first rest An S.
  destruct (reachable_invariant w R) as [_ _ _ _ L N _ _].
  destruct (selectedSource (app w)) as [c|] eqn:Sel.
  - exists c. split; [now apply L|]. apply A. now exists c.
  - rewrite (N response An eq_refl) in S. discriminate S.
Qed.

End ReachableFacts.

(* ================================================================== *)
(** ** What the events request and what they write *)

Section Events.

Context {host : Host}.

(** The effects of each event that can happen. *)
Lemma dispatch_effects (e : Event) (w w' : Session) (effects : list Effect) :
  dispatch e w = Some (w', effects) ->
  effects
  = match e with
    | submit_click => [askQuestion (request (app w))]
    | ask_settled (fulfilled _) =>
        if window_defined
        then [setTimeout_scrollIntoView answer_region "smooth" "center" 0]
        else []
    | citation_click _ | quick_view_click _ =>
        if window_defined
        then [setTimeout_scrollIntoView preview_region "smooth" "start" 0]
        else []
    | full_text_click =>
        match chain (resolvedSource (app w)) viewer_url with
        | value v =>
            match resolveViewerUrl v with
            | Some direct =>
                if truthy_string direct && window_defined
                then [window_open direct "_blank" "noopener,noreferrer"]
                else []
            | None => []
            end
        | _ => []
        end
    | _ => []
    end.
Proof.
  unfold dispatch, handler_of.
  destruct e as [v| |[response|err]| | |idx|idx|idx|].
  - intros D. inversion D; subst. reflexivity.
  - destruct (loading (app w)); [discriminate|].
    intros D. inversion D; subst. reflexivity.
  - destruct (in_flight w) as [|n]; [discriminate|].
    rewrite handleSubmit_settled_fulfilled, scrollAnswerIntoView_effects.
    intros D. inversion D; subst. reflexivity.
  - destruct (in_flight w) as [|n]; [discriminate|].
    intros D. inversion D; subst. reflexivity.
  - destruct (answer (app w)); [|discriminate].
    intros D. inversion D; subst. reflexivity.
  - destruct (answer (app w)); [|discriminate].
    intros D. inversion D; subst. reflexivity.
  - destruct (rendered_source (app w) idx) as [source|]; [|discriminate].
    simpl option_map. cbv iota. unfold and_then, clearAnswerHighlight.
    rewrite handleSourceClick_state, scrollPreviewIntoView_effects. simpl.
    intros D. inversion D; subst. apply app_nil_r.
  - destruct (rendered_source (app w) idx) as [source|]; [|discriminate].
    simpl option_map. cbv iota. rewrite toggleExpand_state.
    intros D. inversion D; subst. reflexivity.
  - destruct (rendered_source (app w) idx) as [source|]; [|discriminate].
    simpl option_map. cbv iota.
    unfold quickView, and_then, clearAnswerHighlight, setAnswerHighlighted.
    rewrite handleSourceClick_state, scrollPreviewIntoView_effects. simpl.
    intros D. inversion D; subst. reflexivity.
  - destruct (answer (app w)); [|discriminate].
    destruct (chain (resolvedSource (app w)) viewer_url) as [| |v];
      try discriminate.
    destruct (truthy_string v); [|discriminate].
    unfold and_then, openFullText.
    destruct (resolveViewerUrl v) as [direct|];
      [destruct (truthy_string direct && window_defined)|];
      simpl; intros D; inversion D; subst; reflexivity.
Qed.

(** X6. The quick view button of a row does what a click on the row
    does: the same next state, the same effects, and it can happen in
    the same sessions. *)
Theorem quick_view_is_row_click (idx : nat) (w : Session) :
  dispatch (quick_view_click idx) w = dispatch (citation_click idx) w.
Proof.
  unfold dispatch, handler_of.
  destruct (rendered_source (app w) idx) as [source|]; [|reflexivity].
  simpl option_map. cbv iota.
  unfold quickView, and_then, clearAnswerHighlight, setAnswerHighlighted.
  rewrite !handleSourceClick_state, !scrollPreviewIntoView_effects. simpl.
  now rewrite app_nil_r.
Qed.

(** X7. Where [window] is not defined no event schedules a scroll or
    opens a window: the only effect left is the call of [askQuestion] by
    the submit click. *)
Theorem headless_effects (e : Event) (w w' : Session) (effects : list Effect) :
  window_defined = false ->
  dispatch e w = Some (w', effects) ->
  (e = submit_click /\ effects = [askQuestion (request (app w))])
  \/ (e <> submit_click /\ effects = []).
Proof.
  intros W D. apply dispatch_effects in D. rewrite W in D.
  destruct e as [v| |[response|err]| | |idx|idx|idx|];
    try (right; split; [discriminate|exact D]).
  - left. split; [reflexivity|exact D].
  - right. split; [discriminate|].
    destruct (chain (resolvedSource (app w)) viewer_url) as [| |v]; try exact D.
    destruct (resolveViewerUrl v) as [direct|]; [|exact D].
    now rewrite andb_false_r in D.
Qed.

(** X8. [askQuestion] is called by the submit click and by nothing
    else, once, with the request as it stands, whatever the question
    (an empty one included); no settlement calls it again. *)
Theorem askQuestion_only_on_submit
  (e : Event) (w w' : Session) (effects : list Effect) (r : AskRequest) :
  dispatch e w = Some (w', effects) ->
  (In (askQuestion r) effects <-> e = submit_click /\ r = request (app w))
  /\ (e = submit_click -> effects = [askQuestion (request (app w))]).
Proof.
  intros D. apply dispatch_effects in D. subst effects.
  split; [|intros ->; reflexivity].
  destruct e as [v| |[response|err]| | |idx|idx|idx|].
  2: { split.
       - intros [E|[]]. inversion E. split; reflexivity.
       - intros [_ ->]. now left. }
  all: split; [intros I; exfalso|intros [E _]; discriminate E].
  all: try destruct window_defined.
  all: try (simpl in I; intuition discriminate).
  all: destruct (chain (resolvedSource (app w)) viewer_url) as [| |v];
    try (simpl in I; intuition discriminate).
  all: destruct (resolveViewerUrl v) as [direct|];
    try (simpl in I; intuition discriminate).
  all: destruct (truthy_string direct); simpl in I; intuition discriminate.
Qed.

End Events.

Section Writers.

Context {host : Host}.

(** X9. A scroll is scheduled only where [window] is defined, always
    smooth and with delay 0, and only in two cases: by a fulfilled
    submission, to the answer region, centred; and by the selection of
    a citation (a click on its row or on its quick view button), to the
    preview region, aligned to its start. Each of them does schedule
    it. An edit, a toggle of an excerpt, a click on the answer and a
    failed submission never scroll. *)
Theorem scroll_requests
  (e : Event) (w w' : Session) (effects : list Effect)
  (target : Region) (behavior block : string) (delay : Z) :
  dispatch e w = Some (w', effects) ->
  In (setTimeout_scrollIntoView target behavior block delay) effects <->
  window_defined = true /\ behavior = "smooth" /\ delay = 0%Z
  /\ ((target = answer_region /\ block = "center"
       /\ exists response, e = ask_settled (fulfilled response))
      \/ (target = preview_region /\ block = "start"
          /\ exists idx, e = citation_click idx \/ e = quick_view_click idx)).
Proof.
  intros D. apply dispatch_effects in D. subst effects.
  split.
  - intros I.
    destruct e as [v| |[response|err]| | |idx|idx|idx|];
      try (simpl in I; intuition discriminate).
    + destruct window_defined; [|contradiction].
      destruct I as [E|[]]. inversion E; subst.
      repeat split. left. repeat split. now exists response.
    + destruct window_defined; [|contradiction].
      destruct I as [E|[]]. inversion E; subst.
      repeat split. right. repeat split. exists idx. now left.
    + destruct window_defined; [|contradiction].
      destruct I as [E|[]]. inversion E; subst.
      repeat split. right. repeat split. exists idx. now right.
    + exfalso.
      destruct (chain (resolvedSource (app w)) viewer_url) as [| |v];
        try (simpl in I; intuition discriminate).
      destruct (resolveViewerUrl v) as [direct|];
        try (simpl in I; intuition discriminate).
      destruct (truthy_string direct && window_defined);
        simpl in I; intuition discriminate.
  - intros [W [-> [-> [[-> [-> [response ->]]]|[-> [-> [idx [->| ->]]]]]]]];
      rewrite W; now left.
Qed.

(** X10. A window is opened by the full text button and by nothing else,
    and only where [window] is defined; it is always opened under the
    target "_blank" with the features "noopener,noreferrer", and its URL
    is the non-empty string the resolver returned for the resolved
    source's [viewer_url]. *)
Theorem window_open_requests
  (e : Event) (w w' : Session) (effects : list Effect)
  (url target features : string) :
  dispatch e w = Some (w', effects) ->
  In (window_open url target features) effects ->
  e = full_text_click /\ window_defined = true
  /\ target = "_blank" /\ features = "noopener,noreferrer"
  /\ url <> ""
  /\ exists v, chain (resolvedSource (app w)) viewer_url = value v
               /\ resolveViewerUrl v = Some url.
Proof.
  intros D I. apply dispatch_effects in D. subst effects.
  destruct e as [v| |[response|err]| | |idx|idx|idx|];
    try (simpl in I; intuition discriminate);
    try (destruct window_defined; simpl in I; intuition discriminate).
  destruct (chain (resolvedSource (app w)) viewer_url) as [| |v];
    try contradiction.
  destruct (resolveViewerUrl v) as [direct|] eqn:R; [|contradiction].
  destruct (truthy_string direct) eqn:T; [|contradiction].
  destruct window_defined; [|contradiction].
  destruct I as [E|[]]. inversion E; subst.
  repeat split.
  - now apply truthy_string_true.
  - now exists v.
Qed.

(** X11. Who writes what. The request changes only by an edit of the
    question; the answer only when a submission settles; the selection
    only by the selection of a citation or a fulfilled submission; the
    expanded key only by the toggle of an excerpt or a fulfilled
    submission; [loading] and [error] only by the submit click or a
    settlement. *)
Theorem state_writers (e : Event) (w w' : Session) (effects : list Effect) :
  dispatch e w = Some (w', effects) ->
  (request (app w') <> request (app w) -> exists v, e = question_change v)
  /\ (answer (app w') <> answer (app w) -> exists outcome, e = ask_settled outcome)
  /\ (selectedSource (app w') <> selectedSource (app w) ->
      (exists idx, e = citation_click idx \/ e = quick_view_click idx)
      \/ exists response, e = ask_settled (fulfilled response))
  /\ (expandedKey (app w') <> expandedKey (app w) ->
      (exists idx, e = expand_click idx)
      \/ exists response, e = ask_settled (fulfilled response))
  /\ (loading (app w') <> loading (app w) \/ error (app w') <> error (app w) ->
      e = submit_click \/ exists outcome, e = ask_settled outcome).
Proof.
  intros D. apply dispatch_cases in D.
  destruct e as [v| |[response|err]| | |idx|idx|idx|].
  - subst w'. simpl. repeat split; intros H;
      try (now contradiction H); try (destruct H as [H|H]; now contradiction H).
    now exists v.
  - destruct D as [_ ->]. rewrite handleSubmit_call_state. simpl.
    repeat split; intros H; try (now contradiction H). now left.
  - destruct D as [_ ->]. rewrite handleSubmit_settled_fulfilled. simpl.
    repeat split; intros H; try (now contradiction H); eauto.
  - destruct D as [_ ->]. rewrite handleSubmit_settled_rejected. simpl.
    repeat split; intros H; try (now contradiction H); eauto.
  - destruct D as [_ ->]. simpl. repeat split; intros H;
      try (now contradiction H); try (destruct H as [H|H]; now contradiction H).
  - destruct D as [_ ->]. simpl. repeat split; intros H;
      try (now contradiction H); try (destruct H as [H|H]; now contradiction H).
  - destruct D as [source [_ ->]]. rewrite handleSourceClick_state. simpl.
    repeat split; intros H;
      try (now contradiction H); try (destruct H as [H|H]; now contradiction H).
    left. exists idx. now left.
  - destruct D as [source [_ ->]]. rewrite toggleExpand_state. simpl.
    repeat split; intros H;
      try (now contradiction H); try (destruct H as [H|H]; now contradiction H).
    left. now exists idx.
  - destruct D as [source [_ ->]]. rewrite handleSourceClick_state. simpl.
    repeat split; intros H;
      try (now contradiction H); try (destruct H as [H|H]; now contradiction H).
    left. exists idx. now right.
  - destruct D as [_ ->]. simpl. repeat split; intros H;
      try (now contradiction H); try (destruct H as [H|H]; now contradiction H).
Qed.

End Writers.

(* ================================================================== *)
(** ** The keys of the rows *)

Lemma Number_toString_inj (a b : Z) :
  Number_toString a = Number_toString b -> a = b.
Proof.
  unfold Number_toString. intros E.
  assert (N : forall z, NilZero.int_of_string (NilZero.string_of_int (Z.to_int z))
                        = Some (Z.to_int z)).
  { intros z. apply NilZero.isi; destruct z; simpl; try discriminate;
      intros H; inversion H as [H'];
      now apply DecimalPos.Unsigned.to_uint_nonnil in H'. }
  apply DecimalZ.to_int_inj.
  apply (f_equal NilZero.int_of_string) in E. rewrite !N in E. congruence.
Qed.

Lemma string_of_uint_dash_free (d : Decimal.uint) :
  dash_free (NilEmpty.string_of_uint d) = true.
Proof. induction d; simpl; auto. Qed.

Lemma Number_toString_dash_free (n : Z) :
  (0 <= n)%Z -> dash_free (Number_toString n) = true.
Proof.
  unfold Number_toString. destruct n as [|p|p]; simpl; intros H.
  - reflexivity.
  - unfold NilZero.string_of_uint.
    destruct (Pos.to_uint p); try reflexivity; apply string_of_uint_dash_free.
  - contradiction H. reflexivity.
Qed.

Lemma dash_free_app_dash (a b : string) :
  dash_free (a ++ String "-" b) = false.
Proof.
  unfold dash_free. induction a as [|c a IH]; simpl; [reflexivity|].
  rewrite IH. apply andb_false_r.
Qed.

(** A name, a dash and digits: the last dash is the one in between. *)
Lemma append_dash_inj (n1 n2 d1 d2 : string) :
  dash_free d1 = true -> dash_free d2 = true ->
  n1 ++ String "-" d1 = n2 ++ String "-" d2 -> n1 = n2 /\ d1 = d2.
Proof.
  intros F1 F2. revert n2.
  induction n1 as [|c n1 IH]; intros [|c' n2] E; simpl in E.
  - inversion E. split; reflexivity.
  - inversion E; subst. now rewrite dash_free_app_dash in F1.
  - inversion E; subst. now rewrite dash_free_app_dash in F2.
  - inversion E; subst. destruct (IH n2 H1) as [-> ->]. split; reflexivity.
Qed.

Lemma key_parts (source : SourceChunk) (idx : nat) :
  key source idx
  = nullish (file_name source) (label source)
    ++ String "-" (Number_toString (page_or_index source idx)).
Proof.
  unfold key, page_or_index. destruct (page_number source); reflexivity.
Qed.

(** X12. The key of a row is its name ([file_name], else [label]), a
    dash, and the decimal digits of its number ([page_number], else its
    position). When the numbers of two rows are safe integers and not
    negative, the rows have the same key exactly when they have the same
    name and the same number, and two rows whose excerpts are shown
    together agree on both. A page number thus collides with a
    position: a row whose page is the position of a pageless row of the
    same name has that row's key, and the two show their excerpts
    together. *)
Theorem key_spec (a b : SourceChunk) (i j : nat) :
  (0 <= page_or_index a i <= MAX_SAFE_INTEGER)%Z ->
  (0 <= page_or_index b j <= MAX_SAFE_INTEGER)%Z ->
  key a i
  = nullish (file_name a) (label a) ++ "-" ++ Number_toString (page_or_index a i)
  /\ (key a i = key b j <->
      nullish (file_name a) (label a) = nullish (file_name b) (label b)
      /\ page_or_index a i = page_or_index b j)
  /\ (forall s,
        isExpanded s a i = true -> isExpanded s b j = true ->
        nullish (file_name a) (label a) = nullish (file_name b) (label b)
        /\ page_or_index a i = page_or_index b j)
  /\ (nullish (file_name a) (label a) = nullish (file_name b) (label b) ->
      page_number a = value (Z.of_nat j) ->
      page_number b = null \/ page_number b = undefined ->
      key a i = key b j
      /\ forall s, isExpanded s a i = isExpanded s b j).
Proof.
  intros [Na _] [Nb _].
  assert (K : key a i = key b j <->
              nullish (file_name a) (label a) = nullish (file_name b) (label b)
              /\ page_or_index a i = page_or_index b j).
  { rewrite !key_parts. split.
    - intros E. apply append_dash_inj in E;
        try now apply Number_toString_dash_free.
      destruct E as [E1 E2]. split; [exact E1|].
      now apply Number_toString_inj.
    - intros [-> ->]. reflexivity. }
  split; [apply key_parts|]. split; [exact K|]. split.
  - intros s. unfold isExpanded.
    destruct (expandedKey s) as [k|]; [|discriminate].
    intros E1 E2. apply String.eqb_eq in E1, E2. apply K. congruence.
  - intros N Pa Pb.
    assert (E : key a i = key b j).
    { apply K. split; [exact N|]. unfold page_or_index. rewrite Pa.
      destruct Pb as [-> | ->]; reflexivity. }
    split; [exact E|]. intros s. unfold isExpanded. now rewrite E.
Qed.

(* ================================================================== *)
(** ** Parameters written and read back *)

Lemma string_app_assoc (a b c : string) : (a ++ b) ++ c = a ++ (b ++ c).
Proof. induction a as [|x a IH]; simpl; [reflexivity|now rewrite IH]. Qed.

Lemma string_forallb_impl (p q : ascii -> bool) (s : string) :
  (forall c, p c = true -> q c = true) ->
  string_forallb p s = true -> string_forallb q s = true.
Proof.
  intros PQ. induction s as [|c r IH]; simpl; [reflexivity|].
  rewrite !andb_true_iff. intros [H1 H2]. split; [now apply PQ|now apply IH].
Qed.

(** *** UTF-8 decoding is idempotent *)

Lemma utf8_first_cases (b : ascii) :
  utf8_first b = (String b "", None)
  \/ utf8_first b = (replacement_character, None)
  \/ exists p, utf8_first b = ("", Some p) /\ bytes_seen p = String b "".
Proof.
  unfold utf8_first.
  destruct (between 0 127 b); [now left|].
  destruct (between 194 223 b); [right; right; eexists; split; reflexivity|].
  destruct (between 224 239 b); [right; right; eexists; split; reflexivity|].
  destruct (between 240 244 b); [right; right; eexists; split; reflexivity|].
  right. now left.
Qed.

Lemma utf8_decode_replacement (rest : string) :
  utf8_decode_from None (replacement_character ++ rest)
  = replacement_character ++ utf8_decode_from None rest.
Proof. reflexivity. Qed.

Lemma utf8_decode_from_fixed (s : string) :
  forall st,
    match st with
    | None => True
    | Some p => utf8_reads p
    end ->
    utf8_decode_from None (utf8_decode_from st s) = utf8_decode_from st s.
Proof.
  induction s as [|b r IH]; intros st Inv.
  - destruct st; reflexivity.
  - assert (Fresh : utf8_decode_from None (utf8_decode_from None (String b r))
                    = utf8_decode_from None (String b r)).
    { cbn [utf8_decode_from].
      destruct (utf8_first_cases b) as [F|[F|[p [F S]]]]; rewrite F.
      - change (String b "" ++ utf8_decode_from None r)
          with (String b (utf8_decode_from None r)).
        cbn [utf8_decode_from]. rewrite F.
        change (String b "" ++ ?x) with (String b x).
        now rewrite (IH None I).
      - rewrite utf8_decode_replacement. now rewrite (IH None I).
      - change ("" ++ ?x) with x. apply IH.
        intros rest. rewrite S.
        change (String b "" ++ rest) with (String b rest).
        cbn [utf8_decode_from]. now rewrite F. }
    destruct st as [p|]; [|exact Fresh].
    cbn [utf8_decode_from].
    destruct (between (lower_boundary p) (upper_boundary p) b) eqn:B.
    + destruct (bytes_needed p) as [|[|n]] eqn:N.
      * rewrite (Inv (String b (utf8_decode_from None r))).
        cbn [utf8_decode_from]. rewrite B, N. now rewrite (IH None I).
      * rewrite (Inv (String b (utf8_decode_from None r))).
        cbn [utf8_decode_from]. rewrite B, N. now rewrite (IH None I).
      * apply IH. intros rest. cbn [bytes_seen].
        rewrite string_app_assoc.
        change (String b "" ++ rest) with (String b rest).
        rewrite (Inv (String b rest)). cbn [utf8_decode_from].
        now rewrite B, N.
    + assert (E : (let (out, st') := utf8_first b in
                   replacement_character ++ out ++ utf8_decode_from st' r)
                  = replacement_character ++ utf8_decode_from None (String b r)).
      { cbn [utf8_decode_from]. destruct (utf8_first b). reflexivity. }
      rewrite E, utf8_decode_replacement. now rewrite Fresh.
Qed.

Lemma utf8_decode_idempotent (s : string) :
  utf8_decode (utf8_decode s) = utf8_decode s.
Proof. unfold utf8_decode. now apply utf8_decode_from_fixed. Qed.

(** *** Percent-encoding read back *)

Lemma hex_pair_spec (c : ascii) :
  (hex_digit (code c / 16) =? "+")%char = false
  /\ (hex_digit (code c mod 16) =? "+")%char = false
  /\ is_hex_digit (hex_digit (code c / 16))
     && is_hex_digit (hex_digit (code c mod 16)) = true
  /\ ascii_of_N (16 * hex_value (hex_digit (code c / 16))
                 + hex_value (hex_digit (code c mod 16))) = c.
Proof.
  destruct c as [[] [] [] [] [] [] [] []]; vm_compute; repeat split.
Qed.

Lemma unreserved_plain (c : ascii) :
  urlencoded_unreserved c = true ->
  (c =? "+")%char = false /\ (c =? "%")%char = false.
Proof.
  destruct c as [[] [] [] [] [] [] [] []]; vm_compute; intro H;
    try discriminate H; split; reflexivity.
Qed.

(** Reading back what the serializer wrote for a name or a value gives
    its bytes again. *)
Lemma percent_decode_serialized (s : string) :
  percent_decode (plus_to_space (urlencoded_byte_serialize s)) = s.
Proof.
  unfold plus_to_space.
  induction s as [|c r IH]; [reflexivity|].
  cbn [urlencoded_byte_serialize].
  destruct (Ascii.eqb_spec c " ") as [->|NS].
  - cbn [string_map percent_decode]. simpl Ascii.eqb. cbv iota.
    cbn [percent_decode]. simpl Ascii.eqb. cbv iota. now rewrite IH.
  - destruct (urlencoded_unreserved c) eqn:U.
    + destruct (unreserved_plain c U) as [P1 P2].
      cbn [string_map]. rewrite P1. cbn [percent_decode]. rewrite P2.
      now rewrite IH.
    + destruct (hex_pair_spec c) as [H1 [H2 [H3 H4]]].
      unfold percent_encode_byte.
      change (String "%" (String ?h (String ?l "")) ++ ?x)
        with (String "%" (String h (String l x))).
      cbn [string_map]. rewrite H1, H2. simpl Ascii.eqb at 1. cbv iota.
      cbn [percent_decode]. simpl Ascii.eqb at 1. cbv iota.
      rewrite H3, H4. now rewrite IH.
Qed.

Lemma percent_encode_byte_written (c : ascii) :
  string_forallb urlencoded_written (percent_encode_byte c) = true.
Proof. destruct c as [[] [] [] [] [] [] [] []]; reflexivity. Qed.

Lemma urlencoded_byte_serialize_written (s : string) :
  string_forallb urlencoded_written (urlencoded_byte_serialize s) = true.
Proof.
  induction s as [|c r IH]; [reflexivity|].
  cbn [urlencoded_byte_serialize].
  destruct (c =? " ")%char; [simpl; exact IH|].
  destruct (urlencoded_unreserved c) eqn:U.
  - cbn [string_forallb]. unfold urlencoded_written at 1. now rewrite U, IH.
  - now rewrite string_forallb_app, percent_encode_byte_written, IH.
Qed.

Lemma written_not_separator (c : ascii) :
  urlencoded_written c = true ->
  (c =? "&")%char = false /\ (c =? "=")%char = false /\ (c =? "?")%char = false.
Proof.
  destruct c as [[] [] [] [] [] [] [] []]; vm_compute; intro H;
    try discriminate H; repeat split.
Qed.

Lemma split_first_eq_written (n v : string) :
  string_forallb urlencoded_written n = true ->
  split_first_eq (n ++ String "=" v) = (n, v).
Proof.
  induction n as [|c n IH]; simpl; [reflexivity|].
  rewrite andb_true_iff. intros [W R].
  destruct (written_not_separator c W) as [_ [E _]]. rewrite E.
  now rewrite (IH R).
Qed.

Lemma split_on_single (s : string) :
  string_forallb (fun c => negb (c =? "&")%char) s = true ->
  split_on "&" s = [s].
Proof.
  induction s as [|c r IH]; simpl; [reflexivity|].
  rewrite andb_true_iff, negb_true_iff. intros [E R].
  rewrite E. now rewrite (IH R).
Qed.

Lemma split_on_first (a rest : string) :
  string_forallb (fun c => negb (c =? "&")%char) a = true ->
  split_on "&" (a ++ String "&" rest) = a :: split_on "&" rest.
Proof.
  induction a as [|c r IH]; simpl; [reflexivity|].
  rewrite andb_true_iff, negb_true_iff. intros [E R].
  rewrite E. now rewrite (IH R).
Qed.

Lemma urlencoded_pair_no_ampersand (p : string * string) :
  string_forallb (fun c => negb (c =? "&")%char) (urlencoded_pair p) = true.
Proof.
  assert (W : forall s,
             string_forallb (fun c => negb (c =? "&")%char)
               (urlencoded_byte_serialize s) = true).
  { intros s. apply (string_forallb_impl urlencoded_written);
      [|apply urlencoded_byte_serialize_written].
    intros c H. destruct (written_not_separator c H) as [E _]. now rewrite E. }
  unfold urlencoded_pair. rewrite string_forallb_app. simpl. now rewrite !W.
Qed.

Lemma urlencoded_serialize_pairs (p : string * string) (rest : list (string * string)) :
  urlencoded_serialize (p :: rest)
  = match rest with
    | [] => urlencoded_pair p
    | _ => urlencoded_pair p ++ String "&" (urlencoded_serialize rest)
    end.
Proof. destruct p as [n v]. reflexivity. Qed.

Lemma split_on_serialized (p : string * string) (rest : list (string * string)) :
  split_on "&" (urlencoded_serialize (p :: rest)) = map urlencoded_pair (p :: rest).
Proof.
  revert p. induction rest as [|q rest IH]; intros p;
    rewrite urlencoded_serialize_pairs.
  - apply split_on_single, urlencoded_pair_no_ampersand.
  - rewrite split_on_first by apply urlencoded_pair_no_ampersand.
    now rewrite IH.
Qed.

Lemma urlencoded_pair_not_empty (p : string * string) :
  (urlencoded_pair p =? "") = false.
Proof.
  unfold urlencoded_pair. destruct (urlencoded_byte_serialize (fst p)); reflexivity.
Qed.

(** The parser reads a serialized list back, each name and value decoded
    as UTF-8. *)
Lemma urlencoded_parse_serialize (l : list (string * string)) :
  urlencoded_parse (urlencoded_serialize l)
  = map (fun p => (utf8_decode (fst p), utf8_decode (snd p))) l.
Proof.
  unfold urlencoded_parse. destruct l as [|p rest]; [reflexivity|].
  rewrite split_on_serialized.
  generalize (p :: rest). clear p rest. intros l.
  induction l as [|[n v] l IH]; [reflexivity|].
  cbn [map filter]. rewrite urlencoded_pair_not_empty. cbn [negb map].
  rewrite IH. f_equal.
  unfold urlencoded_pair. cbn [fst snd].
  rewrite split_first_eq_written by apply urlencoded_byte_serialize_written.
  now rewrite !percent_decode_serialized.
Qed.

Lemma urlencoded_parse_decoded (input : string) (p : string * string) :
  In p (urlencoded_parse input) ->
  (utf8_decode (fst p), utf8_decode (snd p)) = p.
Proof.
  unfold urlencoded_parse. rewrite in_map_iff.
  intros [piece [E _]]. subst p.
  destruct (split_first_eq piece) as [n v]. cbn [fst snd].
  now rewrite !utf8_decode_idempotent.
Qed.

Lemma serialized_head (l : list (string * string)) :
  URLSearchParams_new (urlencoded_serialize l)
  = urlencoded_parse (urlencoded_serialize l).
Proof.
  unfold URLSearchParams_new.
  destruct l as [|[n v] rest]; [reflexivity|].
  rewrite urlencoded_serialize_pairs. unfold urlencoded_pair. cbn [fst snd].
  pose proof (urlencoded_byte_serialize_written n) as W.
  destruct (urlencoded_byte_serialize n) as [|c r].
  - destruct rest; reflexivity.
  - cbn [string_forallb] in W. apply andb_true_iff in W. destruct W as [W _].
    destruct (written_not_separator c W) as [_ [_ Q]].
    destruct rest; cbn [append]; now rewrite Q.
Qed.

(** Any part of a parsed list, serialized and parsed again, is that
    part. *)
Lemma parse_serialize_filtered (keep : string * string -> bool) (input : string) :
  URLSearchParams_new
    (URLSearchParams_toString (filter keep (urlencoded_parse input)))
  = filter keep (urlencoded_parse input).
Proof.
  unfold URLSearchParams_toString.
  rewrite serialized_head, urlencoded_parse_serialize.
  assert (D : forall p, In p (filter keep (urlencoded_parse input)) ->
                        (utf8_decode (fst p), utf8_decode (snd p)) = p).
  { intros p I. apply filter_In in I. destruct I as [I _].
    now apply (urlencoded_parse_decoded input). }
  induction (filter keep (urlencoded_parse input)) as [|p l IH]; [reflexivity|].
  cbn [map]. rewrite (D p (or_introl eq_refl)). f_equal.
  apply IH. intros q I. apply D. now right.
Qed.

(* ================================================================== *)
(** ** The preview link, once more *)

Section PreviewFacts.

Context {host : Host}.

Lemma filter_twice {A : Type} (keep : A -> bool) (l : list A) :
  filter keep (filter keep l) = filter keep l.
Proof.
  induction l as [|x l IH]; [reflexivity|]. simpl.
  destruct (keep x) eqn:K; simpl; [rewrite K|]; now rewrite IH.
Qed.

(** X13. When the absolute URL parses and has a non-empty fragment, the
    fragment of the preview link, read as parameters again, is the list
    of the parameters of the old fragment without those named [search],
    in their order: no parameter named [search] is left, none of the
    others is lost or altered, and removing [search] from the new
    fragment once more gives the same fragment. *)
Theorem previewUrl_of_search_gone (raw absolute : string) (url : URL) (f : string) :
  raw <> "" -> resolveViewerUrl raw = Some absolute -> absolute <> "" ->
  URL_new parse_url_without_fragment absolute = Some url ->
  fragment url = Some f -> f <> "" ->
  exists q,
    previewUrl_of (value raw)
    = Some (if q =? "" then href_without_fragment url
            else href_without_fragment url ++ String "#" q)
    /\ URLSearchParams_new q
       = URLSearchParams_delete "search" (URLSearchParams_new f)
    /\ (forall p, In p (URLSearchParams_new q) -> fst p <> "search")
    /\ URLSearchParams_toString
         (URLSearchParams_delete "search" (URLSearchParams_new q)) = q.
Proof.
  intros R Res A U F NE.
  exists (URLSearchParams_toString
            (URLSearchParams_delete "search" (URLSearchParams_new f))).
  assert (RT : URLSearchParams_new
                 (URLSearchParams_toString
                    (URLSearchParams_delete "search" (URLSearchParams_new f)))
               = URLSearchParams_delete "search" (URLSearchParams_new f)).
  { unfold URLSearchParams_delete, URLSearchParams_new at 2 3.
    apply parse_serialize_filtered. }
  split; [|split; [|split]].
  - rewrite (previewUrl_of_parsed raw absolute url R Res A U), F.
    destruct f as [|c f]; [contradiction|]. reflexivity.
  - exact RT.
  - intros p. rewrite RT. unfold URLSearchParams_delete. rewrite filter_In.
    rewrite negb_true_iff, String.eqb_neq. now intros [_ H].
  - rewrite RT. unfold URLSearchParams_delete. now rewrite filter_twice.
Qed.

(** X14. Whenever there is a preview link, the resolved source has a
    non-empty [viewer_url] for which the resolver returns a non-empty
    URL; so, an answer being shown, the full text button is rendered,
    and where [window] is defined its click opens that URL. *)
Theorem preview_implies_full_text (w : Session) (link : string) :
  answer (app w) <> None ->
  previewUrl (app w) = Some link ->
  exists v direct,
    chain (resolvedSource (app w)) viewer_url = value v /\ v <> ""
    /\ resolveViewerUrl v = Some direct /\ direct <> ""
    /\ dispatch full_text_click w <> None
    /\ (window_defined = true ->
        option_map snd (dispatch full_text_click w)
        = Some [window_open direct "_blank" "noopener,noreferrer"]).
Proof.
  intros A P. unfold previewUrl, previewUrl_of in P.
  destruct (chain (resolvedSource (app w)) viewer_url) as [| |v] eqn:C;
    try discriminate P.
  destruct (truthy_string v) eqn:T; [|discriminate P]. simpl in P.
  destruct (resolveViewerUrl v) as [direct|] eqn:R; [|discriminate P].
  destruct (truthy_string direct) eqn:T'; [|discriminate P].
  exists v, direct.
  assert (D : dispatch full_text_click w
              = Some ({| app := fst (clearAnswerHighlight (app w));
                         in_flight := in_flight w |},
                      if window_defined
                      then [window_open direct "_blank" "noopener,noreferrer"]
                      else [])).
  { unfold dispatch, handler_of. rewrite C, T.
    destruct (answer (app w)); [|now contradiction A].
    unfold and_then, openFullText. rewrite R, T'.
    destruct window_defined; reflexivity. }
  split; [reflexivity|].
  split; [now apply truthy_string_true|].
  split; [exact R|].
  split; [now apply truthy_string_true|].
  split; [rewrite D; discriminate|].
  intros W. rewrite D, W. reflexivity.
Qed.

(** X15. What is shown of a failure. After a rejection the error
    paragraph shows the message of the thrown [Error] when it is not
    empty, and "Failed to reach backend" when what was thrown is no
    [Error]; for an [Error] with an empty message nothing is shown at
    all: no error text, no answer, no loading indicator. *)
Theorem error_text_after_failure (err : Thrown) (s : AppState) :
  let s' := fst (handleSubmit_settled (rejected err) s) in
  (forall m,
     error_text s' = Some m <->
     (err = Error_instance m /\ m <> "")
     \/ (err = not_an_Error /\ m = "Failed to reach backend"))
  /\ (error_text s' = None <-> err = Error_instance "")
  /\ (err = Error_instance "" ->
      error_text s' = None /\ answer s' = None /\ loading s' = false).
Proof.
  cbv zeta. rewrite handleSubmit_settled_rejected. unfold error_text. simpl.
  split; [|split].
  - intros m. destruct err as [m'|]; simpl.
    + destruct (truthy_string m') eqn:T.
      * apply truthy_string_true in T. split.
        -- intros E. inversion E; subst. now left.
        -- intros [[E _]|[E _]]; [now inversion E|discriminate E].
      * apply truthy_string_false in T. subst. split; [discriminate|].
        intros [[E N]|[E _]]; [inversion E; subst; now contradiction N
                              |discriminate E].
    + split.
      * intros E. inversion E. now right.
      * intros [[E _]|[_ ->]]; [discriminate E|reflexivity].
  - destruct err as [m'|]; simpl.
    + destruct (truthy_string m') eqn:T.
      * apply truthy_string_true in T. split; [discriminate|].
        intros E. inversion E; subst. now contradiction T.
      * apply truthy_string_false in T. subst. split; reflexivity.
    + split; discriminate.
  - intros ->. repeat split.
Qed.

End PreviewFacts.

(* ================================================================== *)
(** ** Typing while a request is under way *)

Section Typing.

Context {host : Host}.

(** X16. The question box is never disabled. An edit made between the
    submit click and the settlement does not reach the call under way,
    which was handed the request as it stood at the click; and the
    settlement, whatever its outcome, keeps the text typed meanwhile and
    the other parameters of the request, and turns [loading] off. *)
Theorem edit_while_loading
  (w w1 w2 w3 : Session) (v : string) (outcome : Settled)
  (e1 e2 e3 : list Effect) :
  dispatch submit_click w = Some (w1, e1) ->
  dispatch (question_change v) w1 = Some (w2, e2) ->
  dispatch (ask_settled outcome) w2 = Some (w3, e3) ->
  e1 = [askQuestion (request (app w))]
  /\ e2 = []
  /\ (forall r, ~ In (askQuestion r) e3)
  /\ question (request (app w3)) = v
  /\ top_k (request (app w3)) = top_k (request (app w))
  /\ pool_size (request (app w3)) = pool_size (request (app w))
  /\ rerank (request (app w3)) = rerank (request (app w))
  /\ loading (app w3) = false
  /\ (forall w0, dispatch (question_change v) w0 <> None).
Proof.
  intros D1 D2 D3.
  pose proof (dispatch_effects _ _ _ _ D1) as E1.
  pose proof (dispatch_effects _ _ _ _ D2) as E2.
  pose proof (dispatch_effects _ _ _ _ D3) as E3.
  apply dispatch_cases in D1, D2, D3.
  destruct D1 as [_ ->]. subst w2. destruct D3 as [_ ->].
  rewrite handleSubmit_call_state.
  split; [exact E1|]. split; [exact E2|]. split.
  - intros r I. subst e3. destruct outcome as [response|err].
    + destruct window_defined; simpl in I; intuition discriminate.
    + contradiction.
  - destruct outcome as [response|err].
    + rewrite handleSubmit_settled_fulfilled. simpl.
      repeat split. discriminate.
    + rewrite handleSubmit_settled_rejected. simpl.
      repeat split. discriminate.
Qed.

End Typing.

(* ================================================================== *)
(** ** The further properties at work *)

Lemma session_answered_reachable : reachable (host := browser_host) session_answered.
Proof. exists [submit_click; ask_settled (fulfilled response_AB)]. reflexivity. Qed.

Lemma session_loading_reachable : reachable (host := browser_host) session_loading.
Proof. exists [submit_click]. reflexivity. Qed.

(** X1 on the session that waits for its answer. *)
Lemma one_call_in_flight_witness :
  in_flight session_loading
  = (if loading (app session_loading) then 1 else 0)%nat
  /\ (in_flight session_loading <= 1)%nat
  /\ (dispatch (host := browser_host) submit_click session_loading = None
      <-> in_flight session_loading = 1%nat)
  /\ (forall outcome,
        dispatch (host := browser_host) (ask_settled outcome) session_loading
        <> None
        <-> loading (app session_loading) = true).
Proof.
  apply (one_call_in_flight (host := browser_host) session_loading).
  exact session_loading_reachable.
Defined.

(** X2 on the session that shows an answer. *)
Lemma request_parameters_fixed_witness :
  top_k (request (app session_answered)) = 10%Z
  /\ pool_size (request (app session_answered)) = 20%Z
  /\ rerank (request (app session_answered)) = true
  /\ (forall w' effects,
        dispatch (host := browser_host) submit_click session_answered
        = Some (w', effects) ->
        effects
        = [askQuestion {| question := question (request (app session_answered));
                          top_k := 10; pool_size := 20; rerank := true |}]).
Proof.
  apply (request_parameters_fixed (host := browser_host) session_answered).
  exact session_answered_reachable.
Defined.

(** X3 on the session that shows an answer. *)
Lemma selection_tracks_answer_witness :
  resolvedSource (app session_answered) = selectedSource (app session_answered)
  /\ (forall response,
        answer (app session_answered) = Some response ->
        (forall selected,
           selectedSource (app session_answered) = Some selected ->
           In selected (sources response))
        /\ (selectedSource (app session_answered) = None
            <-> sources response = [])).
Proof.
  apply (selection_tracks_answer (host := browser_host) session_answered).
  exact session_answered_reachable.
Defined.

(** X4 on the session that shows an answer. *)
Lemma error_excludes_answer_witness :
  (forall message,
     error (app session_answered) = Some message ->
     answer (app session_answered) = None
     /\ loading (app session_answered) = false
     /\ answerHighlighted (app session_answered) = false)
  /\ (answerHighlighted (app session_answered) = true ->
      exists response, answer (app session_answered) = Some response).
Proof.
  apply (error_excludes_answer (host := browser_host) session_answered).
  exact session_answered_reachable.
Defined.

(** X5 on the session that shows an answer, for the row of "B". *)
Lemma active_rows_reachable_witness :
  (isActive (app session_answered) source_B = true <->
     exists selected,
       selectedSource (app session_answered) = Some selected
       /\ label selected = label source_B)
  /\ (forall response first rest,
        answer (app session_answered) = Some response ->
        sources response = first :: rest ->
        exists row,
          In row (sources response)
          /\ isActive (app session_answered) row = true).
Proof.
  apply (active_rows_reachable (host := browser_host) session_answered source_B).
  exact session_answered_reachable.
Defined.

(** X7: a click on a row where there is no window. *)
Lemma headless_effects_witness :
  (citation_click 0 = submit_click
   /\ @nil Effect = [askQuestion (request (app session_linked))])
  \/ (citation_click 0 <> submit_click /\ @nil Effect = []).
Proof.
  apply (headless_effects (host := headless_host)
           (citation_click 0) session_linked session_linked_clicked []);
    reflexivity.
Defined.

(** X8: the submit click in the initial session. *)
Lemma askQuestion_only_on_submit_witness :
  (In (askQuestion DEFAULT_REQUEST) [askQuestion DEFAULT_REQUEST]
   <-> submit_click = submit_click
       /\ DEFAULT_REQUEST = request (app initial_session))
  /\ (submit_click = submit_click ->
      [askQuestion DEFAULT_REQUEST]
      = [askQuestion (request (app initial_session))]).
Proof.
  apply (askQuestion_only_on_submit (host := browser_host)
           submit_click initial_session session_loading
           [askQuestion DEFAULT_REQUEST] DEFAULT_REQUEST).
  reflexivity.
Defined.

(** X9: a click on a row in a browser. *)
Lemma scroll_requests_witness :
  In (setTimeout_scrollIntoView preview_region "smooth" "start" 0)
     [setTimeout_scrollIntoView preview_region "smooth" "start" 0]
  <-> window_defined (Host := browser_host) = true
      /\ "smooth" = "smooth" /\ 0%Z = 0%Z
      /\ ((preview_region = answer_region /\ "start" = "center"
           /\ exists response, citation_click 0 = ask_settled (fulfilled response))
          \/ (preview_region = preview_region /\ "start" = "start"
              /\ exists idx,
                   citation_click 0 = citation_click idx
                   \/ citation_click 0 = quick_view_click idx)).
Proof.
  apply (scroll_requests (host := browser_host)
           (citation_click 0) session_linked session_linked_clicked
           [setTimeout_scrollIntoView preview_region "smooth" "start" 0]).
  reflexivity.
Defined.

(** X10: the full text button in a browser. *)
Lemma window_open_requests_witness :
  full_text_click = full_text_click
  /\ window_defined (Host := browser_host) = true
  /\ "_blank" = "_blank" /\ "noopener,noreferrer" = "noopener,noreferrer"
  /\ "https://host/doc#search=foo" <> ""
  /\ exists v,
       chain (resolvedSource (app session_linked)) viewer_url = value v
       /\ resolveViewerUrl (Host := browser_host) v
          = Some "https://host/doc#search=foo".
Proof.
  apply (window_open_requests (host := browser_host)
           full_text_click session_linked session_linked_clicked
           [window_open "https://host/doc#search=foo" "_blank" "noopener,noreferrer"]).
  - reflexivity.
  - now left.
Defined.

(** X11: a click on a row writes the highlight only, the source being
    selected already. *)
Lemma state_writers_witness :
  (request (app session_linked_clicked) <> request (app session_linked) ->
   exists v, citation_click 0 = question_change v)
  /\ (answer (app session_linked_clicked) <> answer (app session_linked) ->
      exists outcome, citation_click 0 = ask_settled outcome)
  /\ (selectedSource (app session_linked_clicked)
      <> selectedSource (app session_linked) ->
      (exists idx, citation_click 0 = citation_click idx
                   \/ citation_click 0 = quick_view_click idx)
      \/ exists response, citation_click 0 = ask_settled (fulfilled response))
  /\ (expandedKey (app session_linked_clicked)
      <> expandedKey (app session_linked) ->
      (exists idx, citation_click 0 = expand_click idx)
      \/ exists response, citation_click 0 = ask_settled (fulfilled response))
  /\ (loading (app session_linked_clicked) <> loading (app session_linked)
      \/ error (app session_linked_clicked) <> error (app session_linked) ->
      citation_click 0 = submit_click
      \/ exists outcome, citation_click 0 = ask_settled outcome).
Proof.
  apply (state_writers (host := browser_host)
           (citation_click 0) session_linked session_linked_clicked
           [setTimeout_scrollIntoView preview_region "smooth" "start" 0]).
  reflexivity.
Defined.

(** X12: page 1 of a book at position 0 and a pageless row of the book
    at position 1. *)
Lemma key_spec_witness :
  key source_page1 0 = "book.pdf-1"
  /\ key source_pageless 1 = "book.pdf-1"
  /\ key source_page1 0 = key source_pageless 1
  /\ (forall s, isExpanded s source_page1 0 = isExpanded s source_pageless 1).
Proof.
  assert (B : (0 <= 1 <= MAX_SAFE_INTEGER)%Z) by (unfold MAX_SAFE_INTEGER; lia).
  destruct (key_spec source_page1 source_pageless 0 1 B B) as [F [_ [_ C]]].
  destruct (key_spec source_pageless source_page1 1 0 B B) as [F' _].
  destruct (C eq_refl eq_refl (or_introl eq_refl)) as [E X].
  split; [exact F|]. split; [exact F'|]. split; [exact E|exact X].
Defined.

(** X13: a fragment with a page and a highlight term. *)
Lemma previewUrl_of_search_gone_witness :
  exists q,
    previewUrl_of (host := browser_host) (value "https://host/doc#page=2&search=foo")
    = Some (if q =? "" then "https://host/doc"
            else "https://host/doc" ++ String "#" q)
    /\ URLSearchParams_new q
       = URLSearchParams_delete "search" (URLSearchParams_new "page=2&search=foo")
    /\ (forall p, In p (URLSearchParams_new q) -> fst p <> "search")
    /\ URLSearchParams_toString
         (URLSearchParams_delete "search" (URLSearchParams_new q)) = q.
Proof.
  apply (previewUrl_of_search_gone (host := browser_host)
           "https://host/doc#page=2&search=foo"
           "https://host/doc#page=2&search=foo"
           {| href_without_fragment := "https://host/doc";
              fragment := Some "page=2&search=foo" |}
           "page=2&search=foo");
    try discriminate; reflexivity.
Defined.

(** X14: the source linked to "https://host/doc#search=foo". *)
Lemma preview_implies_full_text_witness :
  exists v direct,
    chain (resolvedSource (app session_linked)) viewer_url = value v /\ v <> ""
    /\ resolveViewerUrl (Host := browser_host) v = Some direct /\ direct <> ""
    /\ dispatch (host := browser_host) full_text_click session_linked <> None
    /\ (window_defined (Host := browser_host) = true ->
        option_map snd (dispatch (host := browser_host) full_text_click session_linked)
        = Some [window_open direct "_blank" "noopener,noreferrer"]).
Proof.
  apply (preview_implies_full_text (host := browser_host)
           session_linked "https://host/doc").
  - discriminate.
  - reflexivity.
Defined.

(** X16: "x" typed while the first request is under way. *)
Lemma edit_while_loading_witness :
  [askQuestion DEFAULT_REQUEST] = [askQuestion (request (app initial_session))]
  /\ @nil Effect = []
  /\ (forall r,
        ~ In (askQuestion r)
            [setTimeout_scrollIntoView answer_region "smooth" "center" 0])
  /\ question (request (app session_typed_answered)) = "x"
  /\ top_k (request (app session_typed_answered))
     = top_k (request (app initial_session))
  /\ pool_size (request (app session_typed_answered))
     = pool_size (request (app initial_session))
  /\ rerank (request (app session_typed_answered))
     = rerank (request (app initial_session))
  /\ loading (app session_typed_answered) = false
  /\ (forall w0, dispatch (host := browser_host) (question_change "x") w0 <> None).
Proof.
  apply (edit_while_loading (host := browser_host)
           initial_session session_loading session_loading_typed
           session_typed_answered "x" (fulfilled response_AB)
           [askQuestion DEFAULT_REQUEST] []
           [setTimeout_scrollIntoView answer_region "smooth" "center" 0]);
    reflexivity.
Defined.
